(** * L1-regularization.ipynb: a toy two-weight regularization notebook

    The notebook defines a quadratic data loss, an L1 and an L2 penalty,
    runs plain gradient descent on a two-element torch weight vector and
    records one snapshot of the weights per step.

    Numbers.  The tensors hold floats; this development reads every
    arithmetic operation exactly, over the rationals [Q] (the calculus
    reading of the notebook), and compares numbers with [==].

    Expressions.  [loss_fn] and the penalties are Python functions over
    anything indexable; numpy evaluates them on meshes, torch evaluates
    them and differentiates them with [loss.backward()].  They are
    embedded as builders of expression graphs over the leaf [W], with an
    evaluator and a reverse-mode gradient following torch's derivative
    formulas.

    Store.  Tensors are references to storages and [Variable]s are mutable
    objects, so [train] runs in a state-and-error monad over a store of
    storages and of variable objects.

    Output.  Of the plots only the arrays handed to matplotlib are
    modelled (the meshes of the first cell); of the [print] statements
    the numbers printed, before they are formatted. *)

From Stdlib Require Import ZArith QArith Qabs Qpower Lqa Lia.
From stdpp Require Import base option list.

Open Scope Q_scope.

(** ** Scalars *)

(** [torch.sign]: 1, -1 or 0. *)
Definition Qsgn (x : Q) : Q :=
  match x ?= 0 with
  | Gt => 1
  | Lt => - (1)
  | Eq => 0
  end.

(** [np.sqrt].  For [a / b] it is [floor (sqrt (a * b)) / b]: the square
    root itself wherever the argument is the square of a rational (as at
    every use below), and the root rounded down to a multiple of [1 / b]
    elsewhere. *)
Definition Qsqrt (q : Q) : Q :=
  Z.sqrt (Qnum q * Zpos (Qden q)) # Qden q.

(** ** Tensors as vectors of scalars *)

Abbreviation tensor := (list Q).

Definition vadd (a b : tensor) : tensor := zip_with Qplus a b.
Definition vsub (a b : tensor) : tensor := zip_with Qminus a b.
Definition vscale (c : Q) (a : tensor) : tensor := map (Qmult c) a.
Definition vzero (a : tensor) : tensor := map (fun _ => 0) a.

(** ** Expression graphs *)

(** Vector-valued nodes: the leaf [W] and [v.pow(n)]. *)
Inductive vexpr : Type :=
| Leaf
| VPow (v : vexpr) (n : Z).

(** Scalar-valued nodes: [v[i]], [s - c], [s ** n], [c * s], [s + t],
    [abs(s)], [np.sqrt(s)], [v.norm(1)] and [v.sum()]. *)
Inductive sexpr : Type :=
| Index (v : vexpr) (i : nat)
| SubC (s : sexpr) (c : Q)
| PowC (s : sexpr) (n : Z)
| MulC (c : Q) (s : sexpr)
| Add (s t : sexpr)
| Abs (s : sexpr)
| Sqrt (s : sexpr)
| Norm1 (v : vexpr)
| Sum (v : vexpr).

(** [v.sum()] on values. *)
Definition vsum (a : tensor) : Q := foldr Qplus 0 a.

Fixpoint veval (v : vexpr) (W : tensor) : tensor :=
  match v with
  | Leaf => W
  | VPow v n => map (fun x => x ^ n) (veval v W)
  end.

(** The forward pass; an index out of range raises (no value). *)
Fixpoint seval (s : sexpr) (W : tensor) : option Q :=
  match s with
  | Index v i => veval v W !! i
  | SubC s c => x ← seval s W; Some (x - c)
  | PowC s n => x ← seval s W; Some (x ^ n)
  | MulC c s => x ← seval s W; Some (c * x)
  | Add s t => x ← seval s W; y ← seval t W; Some (x + y)
  | Abs s => x ← seval s W; Some (Qabs x)
  | Sqrt s => x ← seval s W; Some (Qsqrt x)
  | Norm1 v => Some (vsum (map Qabs (veval v W)))
  | Sum v => Some (vsum (veval v W))
  end.

(** The backward pass: the gradient with respect to the leaf that reaches
    it through a node whose incoming gradient is [up] (a vector) or [g]
    (a scalar).  The rules are torch's: [pow] gives
    [grad * n * x.pow(n - 1)], [norm(1)] and [abs] give [grad * sign(x)],
    [sum] spreads the gradient, indexing puts it at the index. *)
Fixpoint vback (v : vexpr) (W up : tensor) : tensor :=
  match v with
  | Leaf => up
  | VPow v n =>
      vback v W
        (zip_with (fun g x => g * (inject_Z n * x ^ (n - 1))) up (veval v W))
  end.

Fixpoint sback (s : sexpr) (W : tensor) (g : Q) : option tensor :=
  match s with
  | Index v i =>
      _ ← veval v W !! i;
      Some (vback v W (<[i := g]> (vzero (veval v W))))
  | SubC s c => sback s W g
  | PowC s n => x ← seval s W; sback s W (g * (inject_Z n * x ^ (n - 1)))
  | MulC c s => sback s W (g * c)
  | Add s t => a ← sback s W g; b ← sback t W g; Some (vadd a b)
  | Abs s => x ← seval s W; sback s W (g * Qsgn x)
  | Sqrt s => x ← seval s W; sback s W (g / (2 * Qsqrt x))
  | Norm1 v => Some (vback v W (map (fun x => g * Qsgn x) (veval v W)))
  | Sum v => Some (vback v W (map (fun _ => g) (veval v W)))
  end.

(** [loss.backward()] seeds the output with gradient 1. *)
Definition gradient (s : sexpr) (W : tensor) : option tensor := sback s W 1.

(** ** The first code cell: the data loss and the numpy penalties *)

Module Surfaces.

(** [0.5*(W[0]-3)**2 + 2.5*(W[1]-2)**2] *)
Definition loss_fn (W : vexpr) : sexpr :=
  Add (MulC 0.5 (PowC (SubC (Index W 0) 3) 2))
      (MulC 2.5 (PowC (SubC (Index W 1) 2) 2)).

(** [abs(W[0]) + abs(W[1])] *)
Definition L1_regularization (W : vexpr) : sexpr :=
  Add (Abs (Index W 0)) (Abs (Index W 1)).

(** [np.sqrt(W[0]**2 + W[1]**2)] *)
Definition L2_regularization (W : vexpr) : sexpr :=
  Sqrt (Add (PowC (Index W 0) 2) (PowC (Index W 1) 2)).

End Surfaces.

(** ** The first code cell, on meshes *)

(** A two-dimensional numpy array, by rows. *)
Abbreviation mesh := (list (list Q)).

(** One axis of [np.mgrid[lo:hi:nj]]: the [n] numbers [i * step + lo]
    with [step = (hi - lo) / (n - 1)], so that both ends are included. *)
Definition axis (lo hi : Q) (n : nat) : list Q :=
  map (fun i => inject_Z (Z.of_nat i)
                * ((hi - lo) / inject_Z (Z.of_nat n - 1)) + lo)
      (seq 0 n).

(** [np.mgrid[lo0:hi0:n0j, lo1:hi1:n1j]]: the first array holds the first
    coordinate of every grid point, the second array the second one. *)
Definition mgrid (lo0 hi0 : Q) (n0 : nat) (lo1 hi1 : Q) (n1 : nat)
    : mesh * mesh :=
  (map (fun x => replicate n1 x) (axis lo0 hi0 n0),
   replicate n0 (axis lo1 hi1 n1)).

(** numpy evaluates the same Python expressions on the stacked array
    [np.array([xmesh, ymesh])]: [W[i]] is a whole mesh and the arithmetic
    works element by element.  An ndarray has no [pow] and no [norm]
    method, and its [sum] is not elementwise: these have no mesh value. *)
Fixpoint meval (s : sexpr) (W : list mesh) : option mesh :=
  match s with
  | Index Leaf i => W !! i
  | Index (VPow _ _) _ => None
  | SubC s c => m ← meval s W; Some (map (map (fun x => x - c)) m)
  | PowC s n => m ← meval s W; Some (map (map (fun x => x ^ n)) m)
  | MulC c s => m ← meval s W; Some (map (map (fun x => c * x)) m)
  | Add s t =>
      a ← meval s W; b ← meval t W; Some (zip_with (zip_with Qplus) a b)
  | Abs s => m ← meval s W; Some (map (map Qabs) m)
  | Sqrt s => m ← meval s W; Some (map (map Qsqrt) m)
  | Norm1 _ => None
  | Sum _ => None
  end.

Module Meshes.

Definition xmesh : mesh := fst (mgrid (- (3)) 9 50 (- (2)) 6 50).
Definition ymesh : mesh := snd (mgrid (- (3)) 9 50 (- (2)) 6 50).



Definition l2_mesh : option mesh :=
  meval (Surfaces.L2_regularization Leaf) [xmesh; ymesh].

End Meshes.

(** ** The store: tensor storages and Variable objects *)

(** A tensor (and a numpy array made from one) is a reference to a
    storage; a [Variable] is a mutable object with a [data] tensor and a
    [grad] tensor that is [None] until the first backward pass. *)
Abbreviation loc := nat.
Abbreviation ref := nat.

Record variable : Type := mkVariable { data : loc; grad : option loc }.

Record store : Type := mkStore {
  tensors : list tensor;
  variables : list variable
}.

(** State and error: a computation runs from a store and either raises or
    returns a value and the store it leaves. *)
Definition M (A : Type) : Type := store -> option (A * store).

Definition ret {A} (a : A) : M A := fun s => Some (a, s).

Definition bind {A B} (m : M A) (f : A -> M B) : M B :=
  fun s => match m s with
           | Some (a, s') => f a s'
           | None => None
           end.

Definition lift {A} (o : option A) : M A :=
  fun s => match o with
           | Some a => Some (a, s)
           | None => None
           end.

Declare Scope store_scope.
Delimit Scope store_scope with store.
Notation "x <- m ;; k" := (bind m (fun x => k))
  (at level 100, m at next level, right associativity) : store_scope.
Notation "m ;; k" := (bind m (fun _ => k))
  (at level 100, right associativity) : store_scope.
Open Scope store_scope.

(** A fresh storage holding [t] (the result of any out-of-place tensor
    operation, of [torch.Tensor([...])] and of [clone]). *)
Definition new_tensor (t : tensor) : M loc :=
  fun s => Some (length (tensors s),
                 mkStore (tensors s ++ [t]) (variables s)).

Definition read (l : loc) : M tensor :=
  fun s => lift (tensors s !! l) s.

(** An in-place operation overwrites the storage it is applied to. *)
Definition write (l : loc) (t : tensor) : M unit :=
  fun s => match tensors s !! l with
           | Some _ => Some (tt, mkStore (<[l := t]> (tensors s)) (variables s))
           | None => None
           end.

Definition clone (l : loc) : M loc := t <- read l ;; new_tensor t.

(** [Variable(t, requires_grad=True)]: a new object whose data is the
    tensor [t] itself (no copy). *)
Definition new_Variable (t : loc) : M ref :=
  fun s => Some (length (variables s),
                 mkStore (tensors s) (variables s ++ [mkVariable t None])).

Definition get (W : ref) : M variable :=
  fun s => lift (variables s !! W) s.

Definition put (W : ref) (v : variable) : M unit :=
  fun s => match variables s !! W with
           | Some _ => Some (tt, mkStore (tensors s) (<[W := v]> (variables s)))
           | None => None
           end.

(** [t.zero_()] *)
Definition zero_ (l : loc) : M unit := t <- read l ;; write l (vzero t).

(** Evaluating the Python expression for the loss builds the graph and
    computes its value; it raises when an index is out of range. *)
Definition forward (loss : sexpr) (W : ref) : M sexpr :=
  v <- get W ;;
  w <- read (data v) ;;
  _ <- lift (seval loss w) ;;
  ret loss.

(** [loss.backward()]: the gradient is accumulated into [W.grad], which is
    created on the first call and added to in place afterwards. *)
Definition backward (loss : sexpr) (W : ref) : M unit :=
  v <- get W ;;
  w <- read (data v) ;;
  g <- lift (gradient loss w) ;;
  match grad v with
  | None => l <- new_tensor g ;; put W (mkVariable (data v) (Some l))
  | Some l => old <- read l ;; write l (vadd old g)
  end.

(** ** The second code cell: the torch penalties and the training loop *)

Module Training.

(** [W.norm(1)] *)
Definition L1_regularization (W : vexpr) : sexpr := Norm1 W.

(** [W.pow(2).sum()] *)
Definition L2_regularization (W : vexpr) : sexpr := Sum (VPow W 2).

Definition lr : Q := 0.04.
Definition alpha : Q := 0.75.
Definition beta : Q := 0.75.
Definition num_steps : nat := 1000.

(** The expression on the right of [loss = ...]. *)
Definition loss_expr (loss_fn : vexpr -> sexpr) (alpha beta : Q) : sexpr :=
  Add (Add (loss_fn Leaf) (MulC alpha (L1_regularization Leaf)))
      (MulC beta (L2_regularization Leaf)).

(** One pass through the body of the [for] loop of [train]. *)
Definition train_body (loss_fn : vexpr -> sexpr) (W : ref)
    (lr alpha beta : Q) (guesses : list loc) : M (list loc) :=
  v <- get W ;;
  match grad v with
  | Some g => zero_ g
  | None => ret tt
  end ;;
  loss <- forward (loss_expr loss_fn alpha beta) W ;;
  backward loss W ;;
  v <- get W ;;
  g <- lift (grad v) ;;
  wd <- read (data v) ;;
  gd <- read g ;;
  d <- new_tensor (vsub wd (vscale lr gd)) ;;
  put W (mkVariable d (grad v)) ;;
  ret (guesses ++ [d]).

Fixpoint train_loop (loss_fn : vexpr -> sexpr) (W : ref)
    (lr alpha beta : Q) (n : nat) (guesses : list loc) : M (list loc) :=
  match n with
  | O => ret guesses
  | S n' =>
      guesses' <- train_body loss_fn W lr alpha beta guesses ;;
      train_loop loss_fn W lr alpha beta n' guesses'
  end.

(** [train(W, lr, alpha, beta, num_steps)].  The body looks [loss_fn] up
    in the notebook's globals when it runs, so the binding in force at
    the call is an argument here. *)
Definition train (loss_fn : vexpr -> sexpr) (W : ref)
    (lr alpha beta : Q) (num_steps : nat) : M (list loc) :=
  train_loop loss_fn W lr alpha beta num_steps [].

(** The names the cell binds. *)
Record env : Type := mkEnv {
  initial_guess : loc;
  W : ref;
  W_l1_reg : ref;
  W_l2_reg : ref;
  guesses : list loc;
  guesses_l1_reg : list loc;
  guesses_l2_reg : list loc
}.

(** The first four statements of the cell: the initial tensor, the
    variable made from it and the two variables made from clones. *)
Definition setup : M (loc * ref * ref * ref) :=
  initial_guess <- new_tensor [8; 5] ;;
  W <- new_Variable initial_guess ;;
  c1 <- clone initial_guess ;;
  W_l1_reg <- new_Variable c1 ;;
  c2 <- clone initial_guess ;;
  W_l2_reg <- new_Variable c2 ;;
  ret (initial_guess, W, W_l1_reg, W_l2_reg).

(** The cell up to the three calls of [train]. *)
Definition cell : M env :=
  vars <- setup ;;
  let '(initial_guess, W, W_l1_reg, W_l2_reg) := vars in
  guesses <- train Surfaces.loss_fn W lr 0 0 num_steps ;;
  guesses_l1_reg <- train Surfaces.loss_fn W_l1_reg lr alpha 0 num_steps ;;
  guesses_l2_reg <- train Surfaces.loss_fn W_l2_reg lr 0 beta num_steps ;;
  ret (mkEnv initial_guess W W_l1_reg W_l2_reg
             guesses guesses_l1_reg guesses_l2_reg).

End Training.

(** ** The third code cell: the loss with its minimum near zero *)

Module NearSparsity.

(** [0.5*(W[0]-0.3)**2 + 2.5*(W[1]-2)**2] *)
Definition loss_fn (W : vexpr) : sexpr :=
  Add (MulC 0.5 (PowC (SubC (Index W 0) 0.3) 2))
      (MulC 2.5 (PowC (SubC (Index W 1) 2) 2)).

(** [W = Variable(initial_guess, requires_grad=True)] and the call of
    [train] with the new [loss_fn], after the cell above; the results
    are the new [W] and the new [guesses_l1_reg]. *)
Definition cell (e : Training.env) : M (ref * list loc) :=
  W <- new_Variable (Training.initial_guess e) ;;
  guesses_l1_reg <-
    Training.train loss_fn W Training.lr Training.alpha 0 Training.num_steps ;;
  ret (W, guesses_l1_reg).

End NearSparsity.

(** ** The fourth code cell: the contour under the near-sparsity run *)

Module Contour.


End Contour.

(** The empty store a fresh kernel starts from. *)
Definition empty_store : store := mkStore [] [].

(** The tensors behind a list of snapshots, read in a store. *)
Definition snapshots (s : store) (guesses : list loc) : list (option tensor) :=
  map (fun l => tensors s !! l) guesses.

(** [W.data] read in a store. *)
Definition weights (s : store) (W : ref) : option tensor :=
  v ← variables s !! W; tensors s !! data v.

(** ** The end of the second code cell: the printed solutions *)

Module Solutions.

(** The three numbers of one [print]: [W.data[0]], [W.data[1]] and the
    value of [f(W)]. *)
Definition solution (f : vexpr -> sexpr) (W : ref) : M (Q * Q * Q) :=
  v <- get W ;;
  w <- read (data v) ;;
  w0 <- lift (w !! 0%nat) ;;
  w1 <- lift (w !! 1%nat) ;;
  l <- lift (seval (f Leaf) w) ;;
  ret (w0, w1, l).

(** The five [print] statements, with the torch penalties. *)
Definition cell (e : Training.env) : M (list (Q * Q * Q)) :=
  p1 <- solution Surfaces.loss_fn (Training.W e) ;;
  p2 <- solution Training.L1_regularization (Training.W e) ;;
  p3 <- solution Surfaces.loss_fn (Training.W_l1_reg e) ;;
  p4 <- solution Training.L1_regularization (Training.W_l1_reg e) ;;
  p5 <- solution Training.L2_regularization (Training.W_l2_reg e) ;;
  ret [p1; p2; p3; p4; p5].

End Solutions.

(** ** The last code cell: the first weight over the last tenth of a run *)

(** [a[i]] on a list or an array: a negative index counts from the end,
    an index out of range raises. *)
Definition py_index {A} (l : list A) (i : Z) : option A :=
  if (0 <=? i)%Z then l !! Z.to_nat i
  else if (- Z.of_nat (length l) <=? i)%Z
       then l !! Z.to_nat (Z.of_nat (length l) + i)
       else None.

(** [int(q)] rounds toward zero. *)
Definition py_int (q : Q) : Z := (Qnum q ÷ Zpos (Qden q))%Z.

Module Report.

(** [np.array(guesses)]: the snapshots, read out of their storages. *)
Definition array (guesses : list loc) : M (list tensor) :=
  fun s => lift (mapM (fun l => tensors s !! l) guesses) s.

(** [a.T[k]]: column [k] of an array of rows.  Without rows the array is
    one-dimensional and empty, and the index raises. *)
Definition column (a : list tensor) (k : nat) : option (list Q) :=
  match a with
  | [] => None
  | _ => mapM (fun w => w !! k) a
  end.

(** The two numbers printed at index [i]: [it_array.T[0][i]] and
    [abs(it_array.T[0][i]-it_array.T[0][i-1])]. *)
Definition line (it_array : list tensor) (i : nat) : option (Q * Q) :=
  c ← column it_array 0;
  x ← py_index c (Z.of_nat i);
  c' ← column it_array 0;
  y ← py_index c' (Z.of_nat i - 1);
  Some (x, Qabs (x - y)).

(** The loop over [range(len(it_array))]. *)
Definition lines (it_array : list tensor) : option (list (Q * Q)) :=
  mapM (line it_array) (seq 0 (length it_array)).

(** The cell, on the list [guesses_l1_reg] bound at that point. *)
Definition cell (guesses_l1_reg : list loc) : M (list (Q * Q)) :=
  it_array <-
    array (drop (Z.to_nat (py_int (0.9 * inject_Z (Z.of_nat Training.num_steps))))
                guesses_l1_reg) ;;
  lift (lines it_array).

End Report.

(** * Vocabulary of the specification *)

(** ** A run without the store *)

(** The new weights and the new contents of the gradient buffer after one
    pass of the loop body, from the weights [w] and the buffer [gbuf]
    ([None] before the first backward pass). *)
Definition sgd_update (loss : sexpr) (lr : Q) (w : tensor)
    (gbuf : option tensor) : option (tensor * tensor) :=
  _ ← seval loss w;
  g ← gradient loss w;
  let g' := match gbuf with
            | None => g
            | Some old => vadd (vzero old) g
            end in
  Some (vsub w (vscale lr g'), g').

(** The weights after each of [n] passes, the last weights and the last
    buffer. *)
Fixpoint sgd_run (loss : sexpr) (lr : Q) (n : nat) (w : tensor)
    (gbuf : option tensor) : option (list tensor * tensor * option tensor) :=
  match n with
  | O => Some ([], w, gbuf)
  | S n' =>
      match sgd_update loss lr w gbuf with
      | Some (w', g') =>
          match sgd_run loss lr n' w' (Some g') with
          | Some (traj, wn, gn) => Some (w' :: traj, wn, gn)
          | None => None
          end
      | None => None
      end
  end.

(** The variable [W] holds the weights [w] and the gradient buffer [g], in
    two different storages. *)
Definition holds (s : store) (W : ref) (w : tensor) (g : option tensor) : Prop :=
  exists v, variables s !! W = Some v /\
    tensors s !! data v = Some w /\
    match grad v with
    | None => g = None
    | Some gl => gl <> data v /\ exists gb, g = Some gb /\ tensors s !! gl = Some gb
    end.

(** What a call of [train] with [n] steps, on a variable that holds [w]
    and [g] in the store [s], returns and leaves: the snapshots are the
    weights [traj] after each step, in [n] new storages, the last of which
    is the storage of the final weights [wn]; nothing else changes but the
    gradient buffer of [W]. *)
Record train_post (s : store) (W : ref) (n : nat) (traj : list tensor)
    (wn : tensor) (gn : option tensor) (guesses : list loc) (s' : store)
    : Prop := {
  post_snapshots : snapshots s' guesses = map Some traj;
  post_length : length guesses = n;
  post_locs : forall v, variables s !! W = Some v ->
              guesses = seq (length (tensors s) +
                             match grad v with
                             | None => 1
                             | Some _ => 0
                             end) n;
  post_NoDup : NoDup guesses;
  post_fresh : Forall (fun l => (length (tensors s) <= l)%nat) guesses;
  post_holds : holds s' W wn gn;
  post_last : forall v', variables s' !! W = Some v' -> n <> 0%nat ->
              last guesses = Some (data v');
  post_tensors : forall l v, variables s !! W = Some v -> grad v <> Some l ->
                 (l < length (tensors s))%nat ->
                 tensors s' !! l = tensors s !! l;
  post_variables : forall r, r <> W -> variables s' !! r = variables s !! r;
  post_nvariables : length (variables s') = length (variables s);
  post_ntensors : forall v, variables s !! W = Some v ->
                  length (tensors s') =
                  (length (tensors s) + n +
                   match grad v, n with
                   | None, S _ => 1
                   | _, _ => 0
                   end)%nat
}.

(** ** Two weights *)

(** Both bindings of [loss_fn] are this quadratic, with [c0] the minimum
    in the first coordinate. *)
Definition quadratic (c0 : Q) (W : vexpr) : sexpr :=
  Add (MulC 0.5 (PowC (SubC (Index W 0) c0) 2))
      (MulC 2.5 (PowC (SubC (Index W 1) 2) 2)).

(** One gradient-descent update of the pair of weights. *)
Definition step2 (c0 lr alpha beta : Q) (p : Q * Q) : Q * Q :=
  (fst p - lr * ((fst p - c0) + alpha * Qsgn (fst p) + 2 * beta * fst p),
   snd p - lr * (5 * (snd p - 2) + alpha * Qsgn (snd p) + 2 * beta * snd p)).

(** The gradient of the whole loss at a pair of weights. *)
Definition grad2 (c0 alpha beta : Q) (p : Q * Q) : Q * Q :=
  ((fst p - c0) + alpha * Qsgn (fst p) + 2 * beta * fst p,
   5 * (snd p - 2) + alpha * Qsgn (snd p) + 2 * beta * snd p).

(** The tensor [w] has two elements, the numbers of the pair [p]. *)
Definition two (w : tensor) (p : Q * Q) : Prop :=
  exists a b, w = [a; b] /\ a == fst p /\ b == snd p.

(** The gradient buffer, once it exists, has the shape of the weights. *)
Definition buffer_ok (g : option tensor) : Prop :=
  match g with
  | None => True
  | Some gb => length gb = 2%nat
  end.

(** A call of [train] on the two weights [(a, b)] with the loss
    [quadratic c0]: the snapshots are the iterates of [step2]. *)
Record run_post (c0 lr alpha beta : Q) (n : nat) (a b : Q) (s : store)
    (W : ref) (guesses : list loc) (s' : store) (traj : list tensor)
    : Prop := {
  run_snapshots : snapshots s' guesses = map Some traj;
  run_length : length traj = n;
  run_traj : forall i wi, traj !! i = Some wi ->
             two wi (Nat.iter (S i) (step2 c0 lr alpha beta) (a, b));
  run_post_of : exists wn gn, train_post s W n traj wn gn guesses s' /\
                buffer_ok gn /\
                two wn (Nat.iter n (step2 c0 lr alpha beta) (a, b))
}.

(** ** The cells, run in order from an empty store *)

(** The stores between the statements, the lists returned by the four
    calls of [train] and the weights behind them. *)
Record trace : Type := mkTrace {
  s0 : store;  (* after the setup *)
  s1 : store;  (* after the unregularized run *)
  s2 : store;  (* after the L1 run *)
  s3 : store;  (* after the L2 run *)
  s3' : store; (* after [W = Variable(initial_guess, ...)] of the third cell *)
  s4 : store;  (* after the near-sparsity run *)
  g1 : list loc; g2 : list loc; g3 : list loc; g4 : list loc;
  traj1 : list tensor; traj2 : list tensor;
  traj3 : list tensor; traj4 : list tensor
}.

(** [t] is the trace of the notebook: the setup gives the variables 0, 1
    and 2 ([W], [W_l1_reg], [W_l2_reg]) and the tensor 0
    ([initial_guess]); the third cell makes the variable 3 (the new [W]). *)
Record notebook_trace (t : trace) : Prop := {
  nb_setup : Training.setup empty_store = Some ((0, 0, 1, 2)%nat, s0 t);
  nb_train1 :
    Training.train Surfaces.loss_fn 0 Training.lr 0 0 Training.num_steps (s0 t)
      = Some (g1 t, s1 t);
  nb_train2 :
    Training.train Surfaces.loss_fn 1 Training.lr Training.alpha 0
      Training.num_steps (s1 t) = Some (g2 t, s2 t);
  nb_train3 :
    Training.train Surfaces.loss_fn 2 Training.lr 0 Training.beta
      Training.num_steps (s2 t) = Some (g3 t, s3 t);
  nb_variable : new_Variable 0 (s3 t) = Some (3%nat, s3' t);
  nb_train4 :
    Training.train NearSparsity.loss_fn 3 Training.lr Training.alpha 0
      Training.num_steps (s3' t) = Some (g4 t, s4 t);
  nb_start1 : variables (s0 t) !! 0%nat = Some (mkVariable 0 None) /\
              tensors (s0 t) !! 0%nat = Some [8; 5];
  nb_start2 : variables (s1 t) !! 1%nat = Some (mkVariable 1 None) /\
              tensors (s1 t) !! 1%nat = Some [8; 5];
  nb_start3 : variables (s2 t) !! 2%nat = Some (mkVariable 2 None) /\
              tensors (s2 t) !! 2%nat = Some [8; 5];
  nb_start4 : variables (s3' t) !! 3%nat = Some (mkVariable 0 None) /\
              tensors (s3' t) !! 0%nat = Some [8; 5];
  nb_run1 : run_post 3 Training.lr 0 0 Training.num_steps 8 5
              (s0 t) 0 (g1 t) (s1 t) (traj1 t);
  nb_run2 : run_post 3 Training.lr Training.alpha 0 Training.num_steps 8 5
              (s1 t) 1 (g2 t) (s2 t) (traj2 t);
  nb_run3 : run_post 3 Training.lr 0 Training.beta Training.num_steps 8 5
              (s2 t) 2 (g3 t) (s3 t) (traj3 t);
  nb_run4 : run_post 0.3 Training.lr Training.alpha 0 Training.num_steps 8 5
              (s3' t) 3 (g4 t) (s4 t) (traj4 t)
}.

(** The expression has a value, and the value is the number [q]. *)
Definition evaluates (o : option Q) (q : Q) : Prop :=
  exists v, o = Some v /\ v == q.


(** The store right after the first two statements of the second cell. *)
Definition one_variable : store :=
  mkStore [[8; 5]] [mkVariable 0 None].

(** One pass of the loop body on the outcome so far; a raised error stays. *)
Definition pass (loss_fn : vexpr -> sexpr) (W : ref) (lr alpha beta : Q)
    (r : option (list loc * store)) : option (list loc * store) :=
  match r with
  | Some (guesses, s) => Training.train_body loss_fn W lr alpha beta guesses s
  | None => None
  end.

(** ** The near-sparsity run on integers *)







(** ** Meshes *)

(** The array has [r] rows of [c] numbers. *)
Definition shaped (r c : nat) (m : mesh) : Prop :=
  length m = r /\ Forall (fun row => length row = c) m.

(** The element [m[i][j]]. *)
Definition element (m : mesh) (i j : nat) : option Q :=
  row ← m !! i; row !! j.

(** The vector [W[:, i, j]] of a stack of meshes. *)
Definition point (W : list mesh) (i j : nat) : option tensor :=
  mapM (fun m => element m i j) W.


(** * Lemmas *)

(** ** Running the primitives *)

Lemma bind_Some {A B} (m : M A) (f : A -> M B) (s s' : store) (a : A) :
  m s = Some (a, s') -> bind m f s = f a s'.
Proof. unfold bind. intros ->. reflexivity. Qed.

Lemma get_run (W : ref) (v : variable) (s : store) :
  variables s !! W = Some v -> get W s = Some (v, s).
Proof. unfold get. intros ->. reflexivity. Qed.

Lemma read_run (l : loc) (t : tensor) (s : store) :
  tensors s !! l = Some t -> read l s = Some (t, s).
Proof. unfold read. intros ->. reflexivity. Qed.

Lemma write_run (l : loc) (t t0 : tensor) (s : store) :
  tensors s !! l = Some t0 ->
  write l t s = Some (tt, mkStore (<[l := t]> (tensors s)) (variables s)).
Proof. unfold write. intros ->. reflexivity. Qed.

Lemma put_run (W : ref) (v v0 : variable) (s : store) :
  variables s !! W = Some v0 ->
  put W v s = Some (tt, mkStore (tensors s) (<[W := v]> (variables s))).
Proof. unfold put. intros ->. reflexivity. Qed.

Lemma lift_run {A} (o : option A) (a : A) (s : store) :
  o = Some a -> lift o s = Some (a, s).
Proof. intros ->. reflexivity. Qed.

Lemma zero_run (l : loc) (t : tensor) (s : store) :
  tensors s !! l = Some t ->
  zero_ l s = Some (tt, mkStore (<[l := vzero t]> (tensors s)) (variables s)).
Proof.
  intros H. unfold zero_.
  rewrite (bind_Some _ _ _ _ _ (read_run _ _ _ H)).
  apply (write_run _ _ _ _ H).
Qed.

Lemma forward_run (loss : sexpr) (W : ref) (v : variable) (w : tensor)
    (x : Q) (s : store) :
  variables s !! W = Some v ->
  tensors s !! data v = Some w ->
  seval loss w = Some x ->
  forward loss W s = Some (loss, s).
Proof.
  intros HW Hd Hx. unfold forward.
  rewrite (bind_Some _ _ _ _ _ (get_run _ _ _ HW)).
  rewrite (bind_Some _ _ _ _ _ (read_run _ _ _ Hd)).
  rewrite (bind_Some _ _ _ _ _ (lift_run _ _ _ Hx)).
  reflexivity.
Qed.

Lemma backward_run_Some (loss : sexpr) (W : ref) (d l : loc)
    (w g old : tensor) (s : store) :
  variables s !! W = Some (mkVariable d (Some l)) ->
  tensors s !! d = Some w ->
  tensors s !! l = Some old ->
  gradient loss w = Some g ->
  backward loss W s =
    Some (tt, mkStore (<[l := vadd old g]> (tensors s)) (variables s)).
Proof.
  intros HW Hd Hl Hg. unfold backward.
  rewrite (bind_Some _ _ _ _ _ (get_run _ _ _ HW)). cbn [data grad].
  rewrite (bind_Some _ _ _ _ _ (read_run _ _ _ Hd)).
  rewrite (bind_Some _ _ _ _ _ (lift_run _ _ _ Hg)).
  rewrite (bind_Some _ _ _ _ _ (read_run _ _ _ Hl)).
  apply (write_run _ _ _ _ Hl).
Qed.

Lemma backward_run_None (loss : sexpr) (W : ref) (d : loc)
    (w g : tensor) (s : store) :
  variables s !! W = Some (mkVariable d None) ->
  tensors s !! d = Some w ->
  gradient loss w = Some g ->
  backward loss W s =
    Some (tt, mkStore (tensors s ++ [g])
                      (<[W := mkVariable d (Some (length (tensors s)))]>
                         (variables s))).
Proof.
  intros HW Hd Hg. unfold backward.
  rewrite (bind_Some _ _ _ _ _ (get_run _ _ _ HW)). cbn [data grad].
  rewrite (bind_Some _ _ _ _ _ (read_run _ _ _ Hd)).
  rewrite (bind_Some _ _ _ _ _ (lift_run _ _ _ Hg)).
  unfold new_tensor at 1.
  erewrite bind_Some by reflexivity.
  apply (put_run W _ (mkVariable d None)
           (mkStore (tensors s ++ [g]) (variables s)) HW).
Qed.

Section TrainBody.

Variable loss_fn : vexpr -> sexpr.
Variables (W : ref) (lr alpha beta : Q).

Let loss := Training.loss_expr loss_fn alpha beta.

Lemma train_body_grad_Some (s : store) (d gl : loc) (w gb w' g' : tensor)
    (guesses : list loc) :
  variables s !! W = Some (mkVariable d (Some gl)) ->
  tensors s !! d = Some w ->
  tensors s !! gl = Some gb ->
  gl <> d ->
  sgd_update loss lr w (Some gb) = Some (w', g') ->
  Training.train_body loss_fn W lr alpha beta guesses s =
    Some (guesses ++ [length (tensors s)],
          mkStore (<[gl := g']> (tensors s) ++ [w'])
                  (<[W := mkVariable (length (tensors s)) (Some gl)]>
                     (variables s))).
Proof.
  intros HW Hd Hg Hne Hup.
  unfold sgd_update in Hup.
  destruct (seval loss w) as [v|] eqn:Hv; [|discriminate].
  destruct (gradient loss w) as [g|] eqn:Hgr; [|discriminate].
  cbn in Hup. injection Hup as <- <-.
  pose proof (lookup_lt_Some _ _ _ Hg) as Hlt.
  unfold Training.train_body.
  rewrite (bind_Some _ _ _ _ _ (get_run _ _ _ HW)). cbn [data grad].
  rewrite (bind_Some _ _ _ _ _ (zero_run _ _ _ Hg)).
  fold loss.
  erewrite bind_Some; cycle 1.
  { eapply forward_run; cbn [variables tensors data]; [exact HW| |exact Hv].
    rewrite list_lookup_insert_ne by exact Hne. exact Hd. }
  erewrite bind_Some; cycle 1.
  { eapply backward_run_Some; cbn [variables tensors data]; [exact HW| | |exact Hgr].
    - rewrite list_lookup_insert_ne by exact Hne. exact Hd.
    - apply list_lookup_insert_eq. exact Hlt. }
  cbn [variables tensors].
  rewrite list_insert_insert_eq.
  erewrite bind_Some by (apply get_run; cbn [variables]; exact HW).
  cbn [data grad].
  erewrite bind_Some by (apply lift_run; reflexivity).
  erewrite bind_Some; cycle 1.
  { apply read_run. cbn [tensors]. rewrite list_lookup_insert_ne by exact Hne. exact Hd. }
  erewrite bind_Some; cycle 1.
  { apply read_run. cbn [tensors]. apply list_lookup_insert_eq. exact Hlt. }
  unfold new_tensor at 1.
  erewrite bind_Some by reflexivity.
  erewrite bind_Some by (eapply put_run; cbn [variables]; exact HW).
  cbn [variables tensors ret].
  rewrite length_insert. reflexivity.
Qed.

Lemma train_body_grad_None (s : store) (d : loc) (w w' g' : tensor)
    (guesses : list loc) :
  variables s !! W = Some (mkVariable d None) ->
  tensors s !! d = Some w ->
  sgd_update loss lr w None = Some (w', g') ->
  Training.train_body loss_fn W lr alpha beta guesses s =
    Some (guesses ++ [S (length (tensors s))],
          mkStore (tensors s ++ [g'; w'])
                  (<[W := mkVariable (S (length (tensors s)))
                                     (Some (length (tensors s)))]>
                     (variables s))).
Proof.
  intros HW Hd Hup.
  unfold sgd_update in Hup.
  destruct (seval loss w) as [v|] eqn:Hv; [|discriminate].
  destruct (gradient loss w) as [g|] eqn:Hgr; [|discriminate].
  cbn in Hup. injection Hup as <- <-.
  pose proof (lookup_lt_Some _ _ _ HW) as HltW.
  pose proof (lookup_lt_Some _ _ _ Hd) as Hltd.
  unfold Training.train_body.
  rewrite (bind_Some _ _ _ _ _ (get_run _ _ _ HW)). cbn [data grad].
  erewrite bind_Some by reflexivity.
  fold loss.
  erewrite bind_Some by (eapply forward_run; [exact HW|exact Hd|exact Hv]).
  erewrite bind_Some by (eapply backward_run_None; [exact HW|exact Hd|exact Hgr]).
  erewrite bind_Some by
    (apply get_run; cbn [variables]; apply list_lookup_insert_eq; exact HltW).
  cbn [data grad].
  erewrite bind_Some by (apply lift_run; reflexivity).
  erewrite bind_Some; cycle 1.
  { apply read_run. cbn [tensors]. rewrite lookup_app_l by exact Hltd. exact Hd. }
  erewrite bind_Some; cycle 1.
  { apply read_run. cbn [tensors]. apply list_lookup_middle. reflexivity. }
  unfold new_tensor at 1.
  erewrite bind_Some by reflexivity.
  erewrite bind_Some; cycle 1.
  { eapply put_run. cbn [variables]. apply list_lookup_insert_eq. exact HltW. }
  cbn [variables tensors ret].
  rewrite list_insert_insert_eq, length_app, <- app_assoc.
  cbn [length app]. rewrite Nat.add_1_r. reflexivity.
Qed.

(** The loop once the gradient buffer exists: every pass overwrites the
    buffer in place and appends one fresh storage for the weights. *)
Lemma train_loop_grad_Some (n : nat) :
  forall (s : store) (d gl : loc) (w gb : tensor) (guesses : list loc)
         (traj : list tensor) (wn : tensor) (gn : option tensor),
  variables s !! W = Some (mkVariable d (Some gl)) ->
  tensors s !! d = Some w ->
  tensors s !! gl = Some gb ->
  gl <> d ->
  sgd_run loss lr n w (Some gb) = Some (traj, wn, gn) ->
  exists gbn, gn = Some gbn /\
    Training.train_loop loss_fn W lr alpha beta n guesses s =
      Some (guesses ++ seq (length (tensors s)) n,
            mkStore (<[gl := gbn]> (tensors s) ++ traj)
                    (<[W := mkVariable
                              match n with
                              | O => d
                              | S k => (length (tensors s) + k)%nat
                              end (Some gl)]> (variables s))).
Proof.
  induction n as [|n IH]; intros s d gl w gb guesses traj wn gn HW Hd Hg Hne Hrun.
  - cbn in Hrun. injection Hrun as <- <- <-.
    exists gb. split; [reflexivity|].
    cbn [Training.train_loop seq]. unfold ret.
    rewrite !app_nil_r. rewrite (list_insert_id _ _ _ Hg), (list_insert_id _ _ _ HW).
    destruct s; reflexivity.
  - cbn [sgd_run] in Hrun.
    destruct (sgd_update loss lr w (Some gb)) as [[w' g']|] eqn:Hup; [|discriminate].
    destruct (sgd_run loss lr n w' (Some g')) as [[[traj' wn'] gn']|] eqn:Hrun';
      [|discriminate].
    injection Hrun as <- <- <-.
    pose proof (lookup_lt_Some _ _ _ Hg) as Hltg.
    pose proof (lookup_lt_Some _ _ _ HW) as HltW.
    cbn [Training.train_loop].
    rewrite (bind_Some _ _ _ _ _
               (train_body_grad_Some s d gl w gb w' g' guesses HW Hd Hg Hne Hup)).
    edestruct (IH (mkStore (<[gl := g']> (tensors s) ++ [w'])
                           (<[W := mkVariable (length (tensors s)) (Some gl)]>
                              (variables s)))
                  (length (tensors s)) gl w' g'
                  (guesses ++ [length (tensors s)]) traj' wn' gn')
      as (gbn & -> & Hloop).
    + cbn [variables]. apply list_lookup_insert_eq. exact HltW.
    + cbn [tensors]. apply list_lookup_middle. rewrite length_insert. reflexivity.
    + cbn [tensors]. rewrite lookup_app_l by (rewrite length_insert; exact Hltg).
      apply list_lookup_insert_eq. exact Hltg.
    + lia.
    + exact Hrun'.
    + exists gbn. split; [reflexivity|].
      rewrite Hloop. cbn [tensors variables].
      rewrite length_app, length_insert. cbn [length].
      rewrite insert_app_l by (rewrite length_insert; exact Hltg).
      rewrite !list_insert_insert_eq, <- !app_assoc. cbn [app seq].
      rewrite Nat.add_1_r.
      replace (match n with
               | O => length (tensors s)
               | S k => (S (length (tensors s)) + k)%nat
               end) with (length (tensors s) + n)%nat by (destruct n; lia).
      reflexivity.
Qed.

Lemma train_grad_Some (n : nat) (s : store) (d gl : loc) (w gb : tensor)
    (traj : list tensor) (wn : tensor) (gn : option tensor) :
  variables s !! W = Some (mkVariable d (Some gl)) ->
  tensors s !! d = Some w ->
  tensors s !! gl = Some gb ->
  gl <> d ->
  sgd_run loss lr n w (Some gb) = Some (traj, wn, gn) ->
  exists gbn, gn = Some gbn /\
    Training.train loss_fn W lr alpha beta n s =
      Some (seq (length (tensors s)) n,
            mkStore (<[gl := gbn]> (tensors s) ++ traj)
                    (<[W := mkVariable
                              match n with
                              | O => d
                              | S k => (length (tensors s) + k)%nat
                              end (Some gl)]> (variables s))).
Proof.
  intros HW Hd Hg Hne Hrun. unfold Training.train.
  destruct (train_loop_grad_Some n s d gl w gb [] traj wn gn HW Hd Hg Hne Hrun)
    as (gbn & -> & Hloop).
  exists gbn. split; [reflexivity|]. exact Hloop.
Qed.

(** The first pass creates the gradient buffer, just before the storage
    of the first new weights. *)
Lemma train_grad_None (n : nat) (s : store) (d : loc) (w : tensor)
    (traj : list tensor) (wn : tensor) (gn : option tensor) :
  variables s !! W = Some (mkVariable d None) ->
  tensors s !! d = Some w ->
  sgd_run loss lr (S n) w None = Some (traj, wn, gn) ->
  exists gbn, gn = Some gbn /\
    Training.train loss_fn W lr alpha beta (S n) s =
      Some (seq (S (length (tensors s))) (S n),
            mkStore (tensors s ++ gbn :: traj)
                    (<[W := mkVariable (S (length (tensors s)) + n)
                                       (Some (length (tensors s)))]>
                       (variables s))).
Proof.
  intros HW Hd Hrun. unfold Training.train.
  cbn [sgd_run] in Hrun.
  destruct (sgd_update loss lr w None) as [[w' g']|] eqn:Hup; [|discriminate].
  destruct (sgd_run loss lr n w' (Some g')) as [[[traj' wn'] gn']|] eqn:Hrun';
    [|discriminate].
  injection Hrun as <- <- <-.
  pose proof (lookup_lt_Some _ _ _ HW) as HltW.
  cbn [Training.train_loop].
  rewrite (bind_Some _ _ _ _ _ (train_body_grad_None s d w w' g' [] HW Hd Hup)).
  edestruct (train_loop_grad_Some n
               (mkStore (tensors s ++ [g'; w'])
                        (<[W := mkVariable (S (length (tensors s)))
                                           (Some (length (tensors s)))]>
                           (variables s)))
               (S (length (tensors s))) (length (tensors s)) w' g'
               ([] ++ [S (length (tensors s))]) traj' wn' gn')
    as (gbn & -> & Hloop).
  - cbn [variables]. apply list_lookup_insert_eq. exact HltW.
  - cbn [tensors]. rewrite lookup_app_r by lia.
    replace (S (length (tensors s)) - length (tensors s))%nat with 1%nat by lia.
    reflexivity.
  - cbn [tensors]. apply list_lookup_middle. reflexivity.
  - lia.
  - exact Hrun'.
  - exists gbn. split; [reflexivity|].
    rewrite Hloop. cbn [tensors variables].
    rewrite length_app. cbn [length app seq].
    rewrite insert_app_r_alt by lia.
    rewrite Nat.sub_diag. cbn [insert list_insert].
    rewrite list_insert_insert_eq, <- app_assoc. cbn [app].
    replace (length (tensors s) + 2)%nat with (S (S (length (tensors s)))) by lia.
    replace (match n with
             | O => S (length (tensors s))
             | S k => (S (S (length (tensors s))) + k)%nat
             end) with (S (length (tensors s)) + n)%nat by (destruct n; lia).
    reflexivity.
Qed.

End TrainBody.

(** ** Shape of a run *)

Lemma sgd_run_length (loss : sexpr) (lr : Q) (n : nat) :
  forall w g traj wn gn,
  sgd_run loss lr n w g = Some (traj, wn, gn) -> length traj = n.
Proof.
  induction n as [|n IH]; intros w g traj wn gn H; cbn [sgd_run] in H.
  - injection H as <- <- <-. reflexivity.
  - destruct (sgd_update loss lr w g) as [[w' g']|]; [|discriminate].
    destruct (sgd_run loss lr n w' (Some g')) as [[[traj' wn'] gn']|] eqn:E;
      [|discriminate].
    injection H as <- <- <-. cbn [length]. f_equal. exact (IH _ _ _ _ _ E).
Qed.

Lemma sgd_run_last (loss : sexpr) (lr : Q) (k : nat) :
  forall w g traj wn gn,
  sgd_run loss lr (S k) w g = Some (traj, wn, gn) -> traj !! k = Some wn.
Proof.
  induction k as [|k IH]; intros w g traj wn gn H;
    cbn [sgd_run] in H;
    destruct (sgd_update loss lr w g) as [[w' g']|]; try discriminate.
  - injection H as <- <- <-. reflexivity.
  - destruct (sgd_run loss lr (S k) w' (Some g')) as [[[traj' wn'] gn']|] eqn:E;
      [|cbn [sgd_run] in E; rewrite E in H; discriminate].
    cbn [sgd_run] in E. rewrite E in H.
    injection H as <- <- <-. cbn [lookup list_lookup].
    apply (IH w' (Some g') traj' wn' gn'). cbn [sgd_run]. exact E.
Qed.

(** A shorter run from the same start is a prefix of a longer one. *)
Lemma sgd_run_prefix (loss : sexpr) (lr : Q) (n : nat) :
  forall w g traj wn gn (i : nat),
  sgd_run loss lr n w g = Some (traj, wn, gn) ->
  (i < n)%nat ->
  exists traj_i w_i g_i,
    sgd_run loss lr (S i) w g = Some (traj_i, w_i, g_i) /\
    traj !! i = Some w_i.
Proof.
  induction n as [|n IH]; intros w g traj wn gn i H Hi; [lia|].
  cbn [sgd_run] in H.
  destruct (sgd_update loss lr w g) as [[w' g']|] eqn:Hup; [|discriminate].
  destruct (sgd_run loss lr n w' (Some g')) as [[[traj' wn'] gn']|] eqn:E;
    [|discriminate].
  injection H as <- <- <-.
  destruct i as [|i].
  - exists [w'], w', (Some g'). cbn [sgd_run]. rewrite Hup. split; reflexivity.
  - destruct (IH w' (Some g') traj' wn' gn' i E ltac:(lia))
      as (traj_i & w_i & g_i & Hrun_i & Hlook).
    exists (w' :: traj_i), w_i, g_i. split; [|exact Hlook].
    change (sgd_run loss lr (S (S i)) w g) with
      (match sgd_update loss lr w g with
       | Some (w', g') =>
           match sgd_run loss lr (S i) w' (Some g') with
           | Some (traj, wn, gn) => Some (w' :: traj, wn, gn)
           | None => None
           end
       | None => None
       end).
    rewrite Hup, Hrun_i. reflexivity.
Qed.

Lemma lookup_seq_app {A} (l1 l2 : list A) :
  map (fun i => (l1 ++ l2) !! i) (seq (length l1) (length l2)) = map Some l2.
Proof.
  revert l1. induction l2 as [|x l2 IH]; intros l1; [reflexivity|].
  cbn [length seq map]. f_equal.
  - apply list_lookup_middle. reflexivity.
  - specialize (IH (l1 ++ [x])).
    rewrite <- app_assoc, length_app in IH. cbn [length app] in IH.
    rewrite Nat.add_1_r in IH. exact IH.
Qed.

Lemma last_seq (j k : nat) : last (seq j (S k)) = Some (j + k)%nat.
Proof. rewrite seq_S. apply last_snoc. Qed.

Lemma train_spec (loss_fn : vexpr -> sexpr) (W : ref) (lr alpha beta : Q)
    (n : nat) (s : store) (w : tensor) (g : option tensor)
    (traj : list tensor) (wn : tensor) (gn : option tensor) :
  holds s W w g ->
  sgd_run (Training.loss_expr loss_fn alpha beta) lr n w g = Some (traj, wn, gn) ->
  exists guesses s',
    Training.train loss_fn W lr alpha beta n s = Some (guesses, s') /\
    train_post s W n traj wn gn guesses s'.
Proof.
  intros (v & HW & Hd & Hg) Hrun.
  pose proof (sgd_run_length _ _ _ _ _ _ _ _ Hrun) as Hlen.
  pose proof (lookup_lt_Some _ _ _ HW) as HltW.
  pose proof (lookup_lt_Some _ _ _ Hd) as Hltd.
  destruct v as [d [gl|]]; cbn [data grad] in *.
  - destruct Hg as (Hne & gb & -> & Hgl).
    pose proof (lookup_lt_Some _ _ _ Hgl) as Hltg.
    destruct (train_grad_Some loss_fn W lr alpha beta n s d gl w gb traj wn gn
                HW Hd Hgl Hne Hrun) as (gbn & -> & Htrain).
    eexists _, _. split; [exact Htrain|].
    split; cbn [tensors variables].
    + pose proof (lookup_seq_app (<[gl:=gbn]> (tensors s)) traj) as E.
      rewrite length_insert, Hlen in E. exact E.
    + apply length_seq.
    + intros v Hv. rewrite HW in Hv. injection Hv as <-. cbn [grad].
      rewrite Nat.add_0_r. reflexivity.
    + apply NoDup_seq.
    + apply Forall_seq. intros; lia.
    + eexists. split; [apply list_lookup_insert_eq; exact HltW|].
      cbn [data grad tensors variables]. split; [|split].
      * destruct n as [|k].
        -- cbn in Hrun. injection Hrun as <- <- <-.
           rewrite app_nil_r, list_lookup_insert_ne by exact Hne. exact Hd.
        -- rewrite lookup_app_r by (rewrite length_insert; lia).
           rewrite length_insert.
           replace (length (tensors s) + k - length (tensors s))%nat with k by lia.
           exact (sgd_run_last _ _ _ _ _ _ _ _ Hrun).
      * destruct n; [exact Hne|lia].
      * exists gbn. split; [reflexivity|].
        rewrite lookup_app_l by (rewrite length_insert; exact Hltg).
        apply list_lookup_insert_eq. exact Hltg.
    + intros v' Hv' Hn. rewrite list_lookup_insert_eq in Hv' by exact HltW.
      injection Hv' as <-. cbn [data].
      destruct n as [|k]; [congruence|]. apply last_seq.
    + intros l v Hv Hgrad Hl. rewrite HW in Hv. injection Hv as <-.
      cbn [grad] in Hgrad.
      rewrite lookup_app_l by (rewrite length_insert; exact Hl).
      apply list_lookup_insert_ne. congruence.
    + intros r Hr. apply list_lookup_insert_ne. congruence.
    + apply length_insert.
    + intros v Hv. rewrite HW in Hv. injection Hv as <-. cbn [grad].
      rewrite length_app, length_insert, Hlen. lia.
  - subst g. destruct n as [|k].
    + cbn in Hrun. injection Hrun as <- <- <-.
      exists [], s. split; [reflexivity|].
      split; cbn [snapshots map length seq]; try reflexivity.
      * constructor.
      * constructor.
      * exists (mkVariable d None). repeat split; assumption.
      * congruence.
      * intros v Hv. rewrite HW in Hv. injection Hv as <-. cbn [grad]. lia.
    + destruct (train_grad_None loss_fn W lr alpha beta k s d w traj wn gn
                  HW Hd Hrun) as (gbn & -> & Htrain).
      eexists _, _. split; [exact Htrain|].
      split; cbn [tensors variables].
      * pose proof (lookup_seq_app (tensors s ++ [gbn]) traj) as E.
        rewrite <- app_assoc, length_app, Hlen in E. cbn [length app] in E.
        rewrite Nat.add_1_r in E. exact E.
      * apply length_seq.
      * intros v Hv. rewrite HW in Hv. injection Hv as <-. cbn [grad].
        rewrite Nat.add_1_r. reflexivity.
      * apply NoDup_seq.
      * apply Forall_seq. intros; lia.
      * eexists. split; [apply list_lookup_insert_eq; exact HltW|].
        cbn [data grad tensors variables]. split; [|split].
        -- rewrite lookup_app_r by lia.
           replace (S (length (tensors s)) + k - length (tensors s))%nat
             with (S k) by lia.
           cbn [lookup list_lookup].
           exact (sgd_run_last _ _ _ _ _ _ _ _ Hrun).
        -- lia.
        -- exists gbn. split; [reflexivity|].
           apply list_lookup_middle. reflexivity.
      * intros v' Hv' _. rewrite list_lookup_insert_eq in Hv' by exact HltW.
        injection Hv' as <-. cbn [data]. apply last_seq.
      * intros l v Hv Hgrad Hl. apply lookup_app_l. exact Hl.
      * intros r Hr. apply list_lookup_insert_ne. congruence.
      * apply length_insert.
      * intros v Hv. rewrite HW in Hv. injection Hv as <-. cbn [grad].
        rewrite length_app. cbn [length]. rewrite Hlen. lia.
Qed.

(** ** Two weights: the closed form of one update *)

#[local] Instance Qsgn_proper : Proper (Qeq ==> Qeq) Qsgn.
Proof. intros x y H. unfold Qsgn. rewrite H. reflexivity. Qed.

Lemma Qsgn_pos (x : Q) : 0 < x -> Qsgn x = 1.
Proof.
  intros H. unfold Qsgn.
  destruct (x ?= 0) eqn:E; [| |reflexivity].
  - apply Qeq_alt in E. lra.
  - apply Qlt_alt in E. lra.
Qed.

Lemma Qsgn_neg (x : Q) : x < 0 -> Qsgn x = - (1).
Proof.
  intros H. unfold Qsgn.
  destruct (x ?= 0) eqn:E; [|reflexivity|].
  - apply Qeq_alt in E. lra.
  - apply Qgt_alt in E. lra.
Qed.

Lemma Surfaces_loss_fn_quadratic : Surfaces.loss_fn = quadratic 3.
Proof. reflexivity. Qed.

Lemma NearSparsity_loss_fn_quadratic : NearSparsity.loss_fn = quadratic 0.3.
Proof. reflexivity. Qed.

Lemma sgd_update_two (c0 lr alpha beta : Q) (w : tensor) (p : Q * Q)
    (g : option tensor) :
  two w p -> buffer_ok g ->
  exists w' g',
    sgd_update (Training.loss_expr (quadratic c0) alpha beta) lr w g
      = Some (w', g') /\
    two w' (step2 c0 lr alpha beta p) /\ length g' = 2%nat.
Proof.
  intros (a & b & -> & Ha & Hb) Hg.
  destruct g as [[|x [|y [|z gb]]]|]; try discriminate Hg;
    (eexists _, _; split; [cbn; reflexivity|]);
    (split; [|reflexivity]);
    (eexists _, _; split; [reflexivity|]);
    cbn [step2 fst snd]; rewrite <- Ha, <- Hb;
    change (2 - 1)%Z with 1%Z; change (inject_Z 2) with 2;
    split; ring.
Qed.

Lemma sgd_run_two (c0 lr alpha beta : Q) (n : nat) :
  forall (w : tensor) (p : Q * Q) (g : option tensor),
  two w p -> buffer_ok g ->
  exists traj wn gn,
    sgd_run (Training.loss_expr (quadratic c0) alpha beta) lr n w g
      = Some (traj, wn, gn) /\
    buffer_ok gn /\
    two wn (Nat.iter n (step2 c0 lr alpha beta) p) /\
    forall i wi, traj !! i = Some wi ->
                 two wi (Nat.iter (S i) (step2 c0 lr alpha beta) p).
Proof.
  induction n as [|n IH]; intros w p g Hw Hg.
  - exists [], w, g. repeat split; try assumption.
    intros i wi H. discriminate H.
  - destruct (sgd_update_two c0 lr alpha beta w p g Hw Hg)
      as (w' & g' & Hup & Hw' & Hg').
    destruct (IH w' (step2 c0 lr alpha beta p) (Some g') Hw' Hg')
      as (traj & wn & gn & Hrun & Hgn & Hwn & Htraj).
    exists (w' :: traj), wn, gn. cbn [sgd_run]. rewrite Hup, Hrun.
    split; [reflexivity|]. split; [exact Hgn|]. split.
    + rewrite Nat.iter_succ_r. exact Hwn.
    + intros [|i] wi H.
      * injection H as <-. exact Hw'.
      * rewrite Nat.iter_succ_r. apply Htraj. exact H.
Qed.

Lemma train_two (c0 lr alpha beta : Q) (n : nat) (s : store) (W : ref)
    (a b : Q) (g : option tensor) :
  holds s W [a; b] g -> buffer_ok g ->
  exists guesses s' traj,
    Training.train (quadratic c0) W lr alpha beta n s = Some (guesses, s') /\
    run_post c0 lr alpha beta n a b s W guesses s' traj.
Proof.
  intros Hh Hg.
  assert (two [a; b] (a, b)) as Hw by (exists a, b; repeat split; reflexivity).
  destruct (sgd_run_two c0 lr alpha beta n [a; b] (a, b) g Hw Hg)
    as (traj & wn & gn & Hrun & Hgn & Hwn & Htraj).
  destruct (train_spec (quadratic c0) W lr alpha beta n s [a; b] g traj wn gn
              Hh Hrun) as (guesses & s' & Htrain & Hpost).
  exists guesses, s', traj. split; [exact Htrain|].
  split.
  - exact (post_snapshots _ _ _ _ _ _ _ _ Hpost).
  - exact (sgd_run_length _ _ _ _ _ _ _ _ Hrun).
  - exact Htraj.
  - exists wn, gn. split; [exact Hpost|]. split; [exact Hgn|exact Hwn].
Qed.

(** A run on a variable without a gradient buffer overwrites no storage
    that existed before. *)
Lemma train_post_frame (s : store) (W : ref) (n : nat) (traj : list tensor)
    (wn : tensor) (gn : option tensor) (guesses : list loc) (s' : store)
    (d : loc) :
  train_post s W n traj wn gn guesses s' ->
  variables s !! W = Some (mkVariable d None) ->
  forall l t, tensors s !! l = Some t -> tensors s' !! l = Some t.
Proof.
  intros Hpost HW l t Hl.
  rewrite (post_tensors _ _ _ _ _ _ _ _ Hpost l _ HW); [exact Hl|discriminate|].
  exact (lookup_lt_Some _ _ _ Hl).
Qed.

Lemma holds_fresh (s : store) (W : ref) (d : loc) (w : tensor) :
  variables s !! W = Some (mkVariable d None) ->
  tensors s !! d = Some w ->
  holds s W w None.
Proof. intros HW Hd. exists (mkVariable d None). repeat split; assumption. Qed.

Lemma notebook_runs : exists t, notebook_trace t.
Proof.
  set (st0 := mkStore [[8; 5]; [8; 5]; [8; 5]]
                      [mkVariable 0 None; mkVariable 1 None; mkVariable 2 None]).
  destruct (train_two 3 Training.lr 0 0 Training.num_steps st0 0 8 5 None)
    as (ga & sa & ta & Ha & Pa); [apply (holds_fresh _ _ 0); reflexivity|exact I|].
  destruct (run_post_of _ _ _ _ _ _ _ _ _ _ _ _ Pa) as (wa & gna & TPa & _ & _).
  assert (variables sa !! 1%nat = Some (mkVariable 1 None)) as Va1
    by (rewrite (post_variables _ _ _ _ _ _ _ _ TPa) by lia; reflexivity).
  assert (variables sa !! 2%nat = Some (mkVariable 2 None)) as Va2
    by (rewrite (post_variables _ _ _ _ _ _ _ _ TPa) by lia; reflexivity).
  assert (forall l t, tensors st0 !! l = Some t -> tensors sa !! l = Some t) as Fa
    by (apply (train_post_frame _ _ _ _ _ _ _ _ 0 TPa); reflexivity).
  destruct (train_two 3 Training.lr Training.alpha 0 Training.num_steps sa 1 8 5 None)
    as (gb & sb & tb & Hb & Pb);
    [apply (holds_fresh _ _ 1); [exact Va1|apply Fa; reflexivity]|exact I|].
  destruct (run_post_of _ _ _ _ _ _ _ _ _ _ _ _ Pb) as (wb & gnb & TPb & _ & _).
  assert (variables sb !! 2%nat = Some (mkVariable 2 None)) as Vb2
    by (rewrite (post_variables _ _ _ _ _ _ _ _ TPb) by lia; exact Va2).
  assert (forall l t, tensors sa !! l = Some t -> tensors sb !! l = Some t) as Fb
    by (apply (train_post_frame _ _ _ _ _ _ _ _ 1 TPb); exact Va1).
  destruct (train_two 3 Training.lr 0 Training.beta Training.num_steps sb 2 8 5 None)
    as (gc & sc & tc & Hc & Pc);
    [apply (holds_fresh _ _ 2); [exact Vb2|apply Fb, Fa; reflexivity]|exact I|].
  destruct (run_post_of _ _ _ _ _ _ _ _ _ _ _ _ Pc) as (wc & gnc & TPc & _ & _).
  assert (forall l t, tensors sb !! l = Some t -> tensors sc !! l = Some t) as Fc
    by (apply (train_post_frame _ _ _ _ _ _ _ _ 2 TPc); exact Vb2).
  assert (length (variables sc) = 3%nat) as Lc.
  { rewrite (post_nvariables _ _ _ _ _ _ _ _ TPc),
            (post_nvariables _ _ _ _ _ _ _ _ TPb),
            (post_nvariables _ _ _ _ _ _ _ _ TPa). reflexivity. }
  set (sc' := mkStore (tensors sc) (variables sc ++ [mkVariable 0 None])).
  assert (variables sc' !! 3%nat = Some (mkVariable 0 None)) as Vc3.
  { unfold sc'. cbn [variables]. apply list_lookup_middle. symmetry. exact Lc. }
  assert (tensors sc' !! 0%nat = Some [8; 5]) as Tc0
    by (apply Fc, Fb, Fa; reflexivity).
  destruct (train_two 0.3 Training.lr Training.alpha 0 Training.num_steps sc' 3 8 5 None)
    as (gd & sd & td & Hd & Pd);
    [apply (holds_fresh _ _ 0); [exact Vc3|exact Tc0]|exact I|].
  exists (mkTrace st0 sa sb sc sc' sd ga gb gc gd ta tb tc td).
  split; cbn [s0 s1 s2 s3 s3' s4 g1 g2 g3 g4 traj1 traj2 traj3 traj4];
    try assumption; try (split; reflexivity).
  - unfold new_Variable. rewrite Lc. reflexivity.
  - split; [exact Va1|apply Fa; reflexivity].
  - split; [exact Vb2|apply Fb, Fa; reflexivity].
  - split; assumption.
Qed.

Lemma notebook_cells (t : trace) :
  notebook_trace t ->
  let e := Training.mkEnv 0 0 1 2 (g1 t) (g2 t) (g3 t) in
  Training.cell empty_store = Some (e, s3 t) /\
  NearSparsity.cell e (s3 t) = Some ((3%nat, g4 t), s4 t).
Proof.
  intros H e. split.
  - unfold Training.cell.
    rewrite (bind_Some _ _ _ _ _ (nb_setup t H)).
    rewrite (bind_Some _ _ _ _ _ (nb_train1 t H)).
    rewrite (bind_Some _ _ _ _ _ (nb_train2 t H)).
    rewrite (bind_Some _ _ _ _ _ (nb_train3 t H)).
    reflexivity.
  - unfold NearSparsity.cell. cbn [Training.initial_guess e].
    rewrite (bind_Some _ _ _ _ _ (nb_variable t H)).
    rewrite (bind_Some _ _ _ _ _ (nb_train4 t H)).
    reflexivity.
Qed.

(** ** Squares and square roots *)

Lemma Qsq_nonneg (x : Q) : 0 <= x * x.
Proof. nra. Qed.

Lemma Qsqrt_exact (q : Q) (m : Z) :
  (0 <= m)%Z -> (Qnum q * Zpos (Qden q) = m * m)%Z -> Qsqrt q = m # Qden q.
Proof.
  intros Hm E. unfold Qsqrt. rewrite E, Z.sqrt_square by exact Hm. reflexivity.
Qed.

Lemma Qsqrt_square (r : Q) : 0 <= r -> Qsqrt (r * r) == r.
Proof.
  destruct r as [a b]. unfold Qle. cbn. intros Ha. rewrite Z.mul_1_r in Ha.
  rewrite (Qsqrt_exact _ (a * Z.pos b)).
  - unfold Qeq. cbn. rewrite Pos2Z.inj_mul. ring.
  - apply Z.mul_nonneg_nonneg; lia.
  - cbn. rewrite Pos2Z.inj_mul. ring.
Qed.

(** ** Reading snapshots later *)


Lemma snapshots_lookup (s : store) (g : list loc) (traj : list tensor)
    (i : nat) (w : tensor) :
  snapshots s g = map Some traj ->
  traj !! i = Some w ->
  exists l, g !! i = Some l /\ tensors s !! l = Some w.
Proof.
  intros H Hw.
  assert (snapshots s g !! i = Some (Some w)) as E
    by (rewrite H, list_lookup_fmap, Hw; reflexivity).
  unfold snapshots in E. rewrite list_lookup_fmap in E.
  destruct (g !! i) as [l|]; [|discriminate E].
  exists l. split; [reflexivity|]. cbn in E. congruence.
Qed.

Section Frames.

Variable t : trace.
Hypothesis H : notebook_trace t.

Lemma frame_run1 l w :
  tensors (s0 t) !! l = Some w -> tensors (s1 t) !! l = Some w.
Proof.
  destruct (run_post_of _ _ _ _ _ _ _ _ _ _ _ _ (nb_run1 t H))
    as (wn & gn & TP & _ & _).
  exact (train_post_frame _ _ _ _ _ _ _ _ _ TP (proj1 (nb_start1 t H)) l w).
Qed.

Lemma frame_run2 l w :
  tensors (s1 t) !! l = Some w -> tensors (s2 t) !! l = Some w.
Proof.
  destruct (run_post_of _ _ _ _ _ _ _ _ _ _ _ _ (nb_run2 t H))
    as (wn & gn & TP & _ & _).
  exact (train_post_frame _ _ _ _ _ _ _ _ _ TP (proj1 (nb_start2 t H)) l w).
Qed.

Lemma frame_run3 l w :
  tensors (s2 t) !! l = Some w -> tensors (s3 t) !! l = Some w.
Proof.
  destruct (run_post_of _ _ _ _ _ _ _ _ _ _ _ _ (nb_run3 t H))
    as (wn & gn & TP & _ & _).
  exact (train_post_frame _ _ _ _ _ _ _ _ _ TP (proj1 (nb_start3 t H)) l w).
Qed.

Lemma frame_variable l w :
  tensors (s3 t) !! l = Some w -> tensors (s3' t) !! l = Some w.
Proof.
  pose proof (nb_variable t H) as E. unfold new_Variable in E.
  injection E as _ <-. exact (fun x => x).
Qed.

Lemma frame_run4 l w :
  tensors (s3' t) !! l = Some w -> tensors (s4 t) !! l = Some w.
Proof.
  destruct (run_post_of _ _ _ _ _ _ _ _ _ _ _ _ (nb_run4 t H))
    as (wn & gn & TP & _ & _).
  exact (train_post_frame _ _ _ _ _ _ _ _ _ TP (proj1 (nb_start4 t H)) l w).
Qed.

End Frames.

(** ** The unregularized run in closed form *)




(** The weights before and after step [i] of a run: the entries [i] of the
    start followed by the snapshots, and of the snapshots. *)
Lemma run_steps (c0 lr alpha beta : Q) (n : nat) (a b : Q) (s : store)
    (W : ref) (guesses : list loc) (s' : store) (traj : list tensor) (i : nat) :
  run_post c0 lr alpha beta n a b s W guesses s' traj ->
  (i < n)%nat ->
  let f := step2 c0 lr alpha beta in
  exists w0 w1 w0' w1',
    ([a; b] :: traj) !! i = Some [w0; w1] /\
    traj !! i = Some [w0'; w1'] /\
    w0 == fst (Nat.iter i f (a, b)) /\
    w1 == snd (Nat.iter i f (a, b)) /\
    w0' == fst (f (Nat.iter i f (a, b))) /\
    w1' == snd (f (Nat.iter i f (a, b))).
Proof.
  intros R Hi f.
  pose proof (run_length _ _ _ _ _ _ _ _ _ _ _ _ R) as Hlen.
  destruct (lookup_lt_is_Some_2 traj i ltac:(lia)) as (wi & Hwi).
  destruct (run_traj _ _ _ _ _ _ _ _ _ _ _ _ R i wi Hwi)
    as (w0' & w1' & -> & E0' & E1').
  assert (exists w0 w1, ([a; b] :: traj) !! i = Some [w0; w1] /\
            w0 == fst (Nat.iter i f (a, b)) /\
            w1 == snd (Nat.iter i f (a, b))) as (w0 & w1 & Hprev & E0 & E1).
  { destruct i as [|j].
    - exists a, b. repeat split; reflexivity.
    - destruct (lookup_lt_is_Some_2 traj j ltac:(lia)) as (wj & Hwj).
      destruct (run_traj _ _ _ _ _ _ _ _ _ _ _ _ R j wj Hwj)
        as (w0 & w1 & -> & E0 & E1).
      exists w0, w1. split; [exact Hwj|]. split; assumption. }
  exists w0, w1, w0', w1'. repeat split; assumption.
Qed.


(** ** A call of [train] and its shorter calls *)

Lemma holds_weights (s : store) (W : ref) (w : tensor) (g : option tensor) :
  holds s W w g -> weights s W = Some w.
Proof. intros (v & HW & Hd & _). unfold weights. rewrite HW. exact Hd. Qed.

Lemma notebook_loss_fn (loss_fn : vexpr -> sexpr) :
  loss_fn = Surfaces.loss_fn \/ loss_fn = NearSparsity.loss_fn ->
  exists c0, loss_fn = quadratic c0.
Proof.
  intros [-> | ->].
  - exists 3. exact Surfaces_loss_fn_quadratic.
  - exists 0.3. exact NearSparsity_loss_fn_quadratic.
Qed.

(** The first [i+1] passes of a call are the call with [i+1] steps: it
    returns the same location for entry [i], and the entry read when it
    has just been appended, the entry read after the whole call and the
    weights after update [i+1] are the same tensor. *)
Lemma train_prefix (loss_fn : vexpr -> sexpr) (W : ref) (lr alpha beta : Q)
    (n : nat) (s : store) (w : tensor) (g : option tensor)
    (traj : list tensor) (wn : tensor) (gn : option tensor)
    (guesses : list loc) (s' : store) (i : nat) :
  holds s W w g ->
  sgd_run (Training.loss_expr loss_fn alpha beta) lr n w g = Some (traj, wn, gn) ->
  train_post s W n traj wn gn guesses s' ->
  (i < n)%nat ->
  exists gi si wi l,
    Training.train loss_fn W lr alpha beta (S i) s = Some (gi, si) /\
    weights si W = Some wi /\
    guesses !! i = Some l /\ gi !! i = Some l /\
    tensors s' !! l = Some wi /\ tensors si !! l = Some wi.
Proof.
  intros Hh Hrun Hpost Hi.
  destruct (sgd_run_prefix _ _ _ _ _ _ _ _ i Hrun Hi)
    as (traj_i & wi & g_i & Hrun_i & Hlook).
  destruct (train_spec loss_fn W lr alpha beta (S i) s w g traj_i wi g_i
              Hh Hrun_i) as (gi & si & Htrain_i & Hpost_i).
  destruct (snapshots_lookup s' guesses traj i wi
              (post_snapshots _ _ _ _ _ _ _ _ Hpost) Hlook) as (l & Hl & Htl).
  destruct (snapshots_lookup si gi traj_i i wi
              (post_snapshots _ _ _ _ _ _ _ _ Hpost_i)
              (sgd_run_last _ _ _ _ _ _ _ _ Hrun_i)) as (l' & Hl' & Htl').
  assert (l' = l) as ->.
  { destruct Hh as (v & HW & _).
    rewrite (post_locs _ _ _ _ _ _ _ _ Hpost v HW) in Hl.
    rewrite (post_locs _ _ _ _ _ _ _ _ Hpost_i v HW) in Hl'.
    rewrite lookup_seq_lt in Hl by lia.
    rewrite lookup_seq_lt in Hl' by lia. congruence. }
  exists gi, si, wi, l. split; [exact Htrain_i|].
  split; [exact (holds_weights _ _ _ _ (post_holds _ _ _ _ _ _ _ _ Hpost_i))|].
  repeat split; assumption.
Qed.

(** ** Counting the passes of the loop *)

Lemma pass_None loss_fn W lr alpha beta (n : nat) :
  Nat.iter n (pass loss_fn W lr alpha beta) None = None.
Proof.
  induction n as [|n IH]; [reflexivity|].
  rewrite Nat.iter_succ, IH. reflexivity.
Qed.

Lemma train_loop_passes loss_fn W lr alpha beta (n : nat) :
  forall guesses s,
  Training.train_loop loss_fn W lr alpha beta n guesses s =
  Nat.iter n (pass loss_fn W lr alpha beta) (Some (guesses, s)).
Proof.
  induction n as [|n IH]; intros guesses s; [reflexivity|].
  rewrite Nat.iter_succ_r. cbn [Training.train_loop pass]. unfold bind.
  destruct (Training.train_body loss_fn W lr alpha beta guesses s)
    as [[guesses' s']|].
  - apply IH.
  - symmetry. apply pass_None.
Qed.

(** ** Independence of the runs *)

Lemma weights_frame (s s' : store) (r : ref) (w : tensor) :
  variables s' !! r = variables s !! r ->
  (forall l t, tensors s !! l = Some t -> tensors s' !! l = Some t) ->
  weights s r = Some w ->
  weights s' r = Some w.
Proof.
  unfold weights. intros -> F.
  destruct (variables s !! r) as [v|]; [|discriminate].
  cbn. apply F.
Qed.

Lemma run_other_variable c0 lr alpha beta n a b s W guesses s' traj (r : ref) :
  run_post c0 lr alpha beta n a b s W guesses s' traj ->
  r <> W ->
  variables s' !! r = variables s !! r.
Proof.
  intros R Hr.
  destruct (run_post_of _ _ _ _ _ _ _ _ _ _ _ _ R) as (wn & gn & TP & _ & _).
  exact (post_variables _ _ _ _ _ _ _ _ TP r Hr).
Qed.

Lemma run_final_weights c0 lr alpha beta n a b s W guesses s' traj :
  run_post c0 lr alpha beta n a b s W guesses s' traj ->
  exists wn, weights s' W = Some wn.
Proof.
  intros R.
  destruct (run_post_of _ _ _ _ _ _ _ _ _ _ _ _ R) as (wn & gn & TP & _ & _).
  exists wn. exact (holds_weights _ _ _ _ (post_holds _ _ _ _ _ _ _ _ TP)).
Qed.

(** ** The near-sparsity run *)












Section NearSparsityRun.

Variable t : trace.
Hypothesis H : notebook_trace t.




End NearSparsityRun.




(** * Properties of the notebook *)


(** C2.  The torch [L2_regularization] is the sum of the squared weights,
    but the numpy [L2_regularization] of the first cell takes the square
    root of that sum: at the weights (3, 4) it gives 5 and not 25. *)
Theorem L2_regularization_numpy_is_root :
  evaluates (seval (Surfaces.L2_regularization Leaf) [3; 4]) 5 /\
  ~ evaluates (seval (Surfaces.L2_regularization Leaf) [3; 4]) (3 ^ 2 + 4 ^ 2) /\
  (forall r : Q, 0 <= r ->
     evaluates (seval (Surfaces.L2_regularization Leaf) [r; 0]) r) /\
  (forall w0 w1 : Q,
     evaluates (seval (Training.L2_regularization Leaf) [w0; w1])
               (w0 ^ 2 + w1 ^ 2)).
Proof.
  split; [|split; [|split]].
  - eexists. split; [reflexivity|]. reflexivity.
  - intros (v & Hv & Hq). cbn in Hv. injection Hv as <-.
    vm_compute in Hq. discriminate Hq.
  - intros r Hr. eexists. split; [reflexivity|].
    cbn [seval veval lookup list_lookup mbind option_bind].
    assert (Qsqrt (r ^ 2 + 0 ^ 2) == r) as E; [|exact E].
    destruct r as [a b]. unfold Qle in Hr. cbn in Hr. rewrite Z.mul_1_r in Hr.
    rewrite (Qsqrt_exact _ (a * Z.pos b)).
    + unfold Qeq. cbn. rewrite !Pos2Z.inj_mul. ring.
    + apply Z.mul_nonneg_nonneg; lia.
    + cbn. rewrite !Pos2Z.inj_mul. ring.
  - intros w0 w1. eexists. split; [reflexivity|].
    cbn [vsum foldr map veval]. ring.
Qed.

(** C3.  A call [train(W, lr, alpha, beta, num_steps)] on a variable with
    two weights, under either binding of [loss_fn], returns a list of
    exactly [num_steps] snapshots, one per step: entry [i], read after the
    call, is the weight vector as it is right after update [i+1], that is,
    [W.data] at the end of the call with [i+1] steps. *)
Theorem train_returns_snapshots (loss_fn : vexpr -> sexpr) (W : ref)
    (lr alpha beta : Q) (num_steps : nat) (s : store) (w0 w1 : Q)
    (g : option tensor) :
  loss_fn = Surfaces.loss_fn \/ loss_fn = NearSparsity.loss_fn ->
  holds s W [w0; w1] g ->
  buffer_ok g ->
  exists guesses s',
    Training.train loss_fn W lr alpha beta num_steps s = Some (guesses, s') /\
    length guesses = num_steps /\
    forall i : nat, (i < num_steps)%nat ->
      exists l gi si wi,
        guesses !! i = Some l /\
        Training.train loss_fn W lr alpha beta (S i) s = Some (gi, si) /\
        weights si W = Some wi /\
        tensors s' !! l = Some wi.
Proof.
  intros Hlf Hh Hg.
  destruct (notebook_loss_fn loss_fn Hlf) as (c0 & ->).
  assert (two [w0; w1] (w0, w1)) as Hw by (exists w0, w1; repeat split; reflexivity).
  destruct (sgd_run_two c0 lr alpha beta num_steps [w0; w1] (w0, w1) g Hw Hg)
    as (traj & wn & gn & Hrun & _).
  destruct (train_spec (quadratic c0) W lr alpha beta num_steps s [w0; w1] g
              traj wn gn Hh Hrun) as (guesses & s' & Htrain & Hpost).
  exists guesses, s'. split; [exact Htrain|].
  split; [exact (post_length _ _ _ _ _ _ _ _ Hpost)|].
  intros i Hi.
  destruct (train_prefix _ _ _ _ _ _ _ _ _ _ _ _ _ _ i Hh Hrun Hpost Hi)
    as (gi & si & wi & l & Htrain_i & Hwi & Hl & _ & Htl & _).
  exists l, gi, si, wi. repeat split; assumption.
Qed.

(** The theorem at three steps of the L1 run from (8, 5). *)
Lemma train_returns_snapshots_witness :
  exists guesses s',
    Training.train Surfaces.loss_fn 0 0.04 0.75 0 3 one_variable
      = Some (guesses, s') /\
    length guesses = 3%nat /\
    forall i : nat, (i < 3)%nat ->
      exists l gi si wi,
        guesses !! i = Some l /\
        Training.train Surfaces.loss_fn 0 0.04 0.75 0 (S i) one_variable
          = Some (gi, si) /\
        weights si 0 = Some wi /\
        tensors s' !! l = Some wi.
Proof.
  apply (train_returns_snapshots Surfaces.loss_fn 0 0.04 0.75 0 3
           one_variable 8 5 None).
  - left. reflexivity.
  - exists (mkVariable 0 None). repeat split; reflexivity.
  - exact I.
Defined.



(** C5, as the notebook's code refutes it: after two steps of the
    unregularized run from (8, 5) the two entries of the returned list
    hold different weights, (7.8, 4.4) and (7.608, 3.92); only the second
    is the final weight vector. *)
Lemma train_entries_differ :
  exists guesses s' a1 b1 a2 b2,
    Training.train Surfaces.loss_fn 0 0.04 0 0 2 one_variable
      = Some (guesses, s') /\
    snapshots s' guesses = [Some [a1; b1]; Some [a2; b2]] /\
    weights s' 0 = Some [a2; b2] /\
    a1 == 7.8 /\ b1 == 4.4 /\ a2 == 7.608 /\ b2 == 3.92 /\
    ~ a1 == a2 /\ ~ b1 == b2.
Proof.
  eexists _, _, _, _, _, _.
  split; [vm_compute; reflexivity|].
  split; [reflexivity|]. split; [reflexivity|].
  repeat split; try (vm_compute; reflexivity);
    intros E; vm_compute in E; discriminate E.
Qed.

(** C5, amended.  After a call of [train] on a variable with two weights
    the entries of the returned list are views of [num_steps] different
    storages, all created by the call; the last one is the storage of the
    final weight vector; and no later step overwrites an entry: entry [i]
    holds after the call what it held when it was appended, in the call
    with [i+1] steps. *)
Theorem train_entries_own_storages (loss_fn : vexpr -> sexpr) (W : ref)
    (lr alpha beta : Q) (num_steps : nat) (s : store) (w0 w1 : Q)
    (g : option tensor) :
  loss_fn = Surfaces.loss_fn \/ loss_fn = NearSparsity.loss_fn ->
  holds s W [w0; w1] g ->
  buffer_ok g ->
  exists guesses s',
    Training.train loss_fn W lr alpha beta num_steps s = Some (guesses, s') /\
    NoDup guesses /\
    Forall (fun l => (length (tensors s) <= l)%nat) guesses /\
    (num_steps <> 0%nat ->
     exists v wn, variables s' !! W = Some v /\
                  last guesses = Some (data v) /\
                  tensors s' !! data v = Some wn) /\
    forall i : nat, (i < num_steps)%nat ->
      exists l gi si wi,
        guesses !! i = Some l /\
        Training.train loss_fn W lr alpha beta (S i) s = Some (gi, si) /\
        last gi = Some l /\
        tensors si !! l = Some wi /\
        tensors s' !! l = Some wi.
Proof.
  intros Hlf Hh Hg.
  destruct (notebook_loss_fn loss_fn Hlf) as (c0 & ->).
  assert (two [w0; w1] (w0, w1)) as Hw by (exists w0, w1; repeat split; reflexivity).
  destruct (sgd_run_two c0 lr alpha beta num_steps [w0; w1] (w0, w1) g Hw Hg)
    as (traj & wn & gn & Hrun & _).
  destruct (train_spec (quadratic c0) W lr alpha beta num_steps s [w0; w1] g
              traj wn gn Hh Hrun) as (guesses & s' & Htrain & Hpost).
  exists guesses, s'. split; [exact Htrain|].
  split; [exact (post_NoDup _ _ _ _ _ _ _ _ Hpost)|].
  split; [exact (post_fresh _ _ _ _ _ _ _ _ Hpost)|].
  split.
  - intros Hn.
    destruct (post_holds _ _ _ _ _ _ _ _ Hpost) as (v & Hv & Hd & _).
    exists v, wn. split; [exact Hv|]. split; [|exact Hd].
    exact (post_last _ _ _ _ _ _ _ _ Hpost v Hv Hn).
  - intros i Hi.
    destruct (train_prefix _ _ _ _ _ _ _ _ _ _ _ _ _ _ i Hh Hrun Hpost Hi)
      as (gi & si & wi & l & Htrain_i & Hwi & Hl & Hgi & Htl & Htli).
    exists l, gi, si, wi.
    split; [exact Hl|]. split; [exact Htrain_i|].
    split; [|split; assumption].
    destruct (sgd_run_prefix _ _ _ _ _ _ _ _ i Hrun Hi)
      as (traj_i & wi' & g_i & Hrun_i & _).
    destruct (train_spec (quadratic c0) W lr alpha beta (S i) s [w0; w1] g
                traj_i wi' g_i Hh Hrun_i) as (gi' & si' & Htrain_i' & Hpost_i).
    rewrite Htrain_i in Htrain_i'. injection Htrain_i' as <- <-.
    rewrite last_lookup, (post_length _ _ _ _ _ _ _ _ Hpost_i). exact Hgi.
Qed.

(** The theorem at three steps of the unregularized run from (8, 5). *)
Lemma train_entries_own_storages_witness :
  exists guesses s',
    Training.train Surfaces.loss_fn 0 0.04 0 0 3 one_variable
      = Some (guesses, s') /\
    NoDup guesses /\
    Forall (fun l => (length (tensors one_variable) <= l)%nat) guesses /\
    (3%nat <> 0%nat ->
     exists v wn, variables s' !! 0%nat = Some v /\
                  last guesses = Some (data v) /\
                  tensors s' !! data v = Some wn) /\
    forall i : nat, (i < 3)%nat ->
      exists l gi si wi,
        guesses !! i = Some l /\
        Training.train Surfaces.loss_fn 0 0.04 0 0 (S i) one_variable
          = Some (gi, si) /\
        last gi = Some l /\
        tensors si !! l = Some wi /\
        tensors s' !! l = Some wi.
Proof.
  apply (train_entries_own_storages Surfaces.loss_fn 0 0.04 0 0 3
           one_variable 8 5 None).
  - left. reflexivity.
  - exists (mkVariable 0 None). repeat split; reflexivity.
  - exact I.
Defined.

(** C6.  Both definitions of [L1_regularization], the numpy one of the
    first cell and the torch one of the second, give the sum of the
    absolute values of the two weights. *)
Theorem L1_regularization_sum_abs (w0 w1 : Q) :
  evaluates (seval (Surfaces.L1_regularization Leaf) [w0; w1])
            (Qabs w0 + Qabs w1) /\
  evaluates (seval (Training.L1_regularization Leaf) [w0; w1])
            (Qabs w0 + Qabs w1).
Proof.
  split; (eexists; split; [reflexivity|]); cbn [vsum foldr map veval]; ring.
Qed.

(** C7.  The data loss [loss_fn] of the first cell, on two weights, is
    [0.5*(w0-3)^2 + 2.5*(w1-2)^2]; it is nonnegative, it is 0 exactly at
    (3, 2) (so that point is its only global minimum), and it is convex:
    on a segment it lies below the chord. *)
Theorem loss_fn_convex_minimum :
  (forall w0 w1 : Q, exists v,
     seval (Surfaces.loss_fn Leaf) [w0; w1] = Some v /\
     v == 0.5 * (w0 - 3) ^ 2 + 2.5 * (w1 - 2) ^ 2 /\
     0 <= v /\
     (v == 0 <-> w0 == 3 /\ w1 == 2)) /\
  (forall x0 x1 y0 y1 t : Q, 0 <= t -> t <= 1 ->
     exists vx vy vz,
       seval (Surfaces.loss_fn Leaf) [x0; x1] = Some vx /\
       seval (Surfaces.loss_fn Leaf) [y0; y1] = Some vy /\
       seval (Surfaces.loss_fn Leaf)
             [t * x0 + (1 - t) * y0; t * x1 + (1 - t) * y1] = Some vz /\
       vz <= t * vx + (1 - t) * vy).
Proof.
  split.
  - intros w0 w1. eexists. split; [reflexivity|].
    pose proof (Qsq_nonneg (w0 - 3)) as H0.
    pose proof (Qsq_nonneg (w1 - 2)) as H1.
    split; [reflexivity|]. split; [lra|]. split.
    + intros H.
      assert ((w0 - 3) * (w0 - 3) == 0) as E0 by lra.
      assert ((w1 - 2) * (w1 - 2) == 0) as E1 by lra.
      destruct (Qmult_integral _ _ E0), (Qmult_integral _ _ E1); split; lra.
    + intros [-> ->]. reflexivity.
  - intros x0 x1 y0 y1 t Ht0 Ht1.
    eexists _, _, _. repeat (split; [reflexivity|]).
    set (A := 0.5 * ((x0 - y0) * (x0 - y0)) + 2.5 * ((x1 - y1) * (x1 - y1))).
    assert (0 <= (t * (1 - t)) * A) as H.
    { apply Qmult_le_0_compat.
      - apply Qmult_le_0_compat; lra.
      - pose proof (Qsq_nonneg (x0 - y0)). pose proof (Qsq_nonneg (x1 - y1)).
        unfold A. lra. }
    unfold A in H. lra.
Qed.

(** Convexity between (0, 0) and (6, 4), a quarter of the way. *)
Lemma loss_fn_convex_minimum_witness :
  exists vx vy vz,
    seval (Surfaces.loss_fn Leaf) [0; 0] = Some vx /\
    seval (Surfaces.loss_fn Leaf) [6; 4] = Some vy /\
    seval (Surfaces.loss_fn Leaf)
          [(1 # 4) * 0 + (1 - (1 # 4)) * 6; (1 # 4) * 0 + (1 - (1 # 4)) * 4]
      = Some vz /\
    vz <= (1 # 4) * vx + (1 - (1 # 4)) * vy.
Proof.
  apply (proj2 loss_fn_convex_minimum 0 0 6 4 (1 # 4)); lra.
Defined.

(** C8.  Every call of [train] ends after exactly [num_steps] passes of
    the loop body (its outcome is the body applied [num_steps] times to
    the empty list and the store of the call); on a variable with two
    weights no pass raises and each pass makes one update of the weights,
    recorded in one new entry; and each of the four calls of the notebook
    makes exactly 1000 passes and returns 1000 entries. *)
Theorem train_makes_num_steps_passes :
  (forall loss_fn W lr alpha beta num_steps s,
     Training.train loss_fn W lr alpha beta num_steps s =
     Nat.iter num_steps (pass loss_fn W lr alpha beta) (Some ([], s))) /\
  (forall loss_fn W lr alpha beta num_steps s w0 w1 g,
     loss_fn = Surfaces.loss_fn \/ loss_fn = NearSparsity.loss_fn ->
     holds s W [w0; w1] g ->
     buffer_ok g ->
     exists guesses s',
       Nat.iter num_steps (pass loss_fn W lr alpha beta) (Some ([], s))
         = Some (guesses, s') /\
       length guesses = num_steps /\
       NoDup guesses /\
       Forall (fun l => (length (tensors s) <= l)%nat) guesses) /\
  (exists e s W' guesses' s',
     Training.cell empty_store = Some (e, s) /\
     NearSparsity.cell e s = Some ((W', guesses'), s') /\
     Training.num_steps = 1000%nat /\
     length (Training.guesses e) = 1000%nat /\
     length (Training.guesses_l1_reg e) = 1000%nat /\
     length (Training.guesses_l2_reg e) = 1000%nat /\
     length guesses' = 1000%nat).
Proof.
  split; [|split].
  - intros. apply train_loop_passes.
  - intros loss_fn W lr alpha beta num_steps s w0 w1 g Hlf Hh Hg.
    destruct (notebook_loss_fn loss_fn Hlf) as (c0 & ->).
    destruct (train_two c0 lr alpha beta num_steps s W w0 w1 g Hh Hg)
      as (guesses & s' & traj & Htrain & R).
    destruct (run_post_of _ _ _ _ _ _ _ _ _ _ _ _ R) as (wn & gn & TP & _ & _).
    exists guesses, s'.
    rewrite <- (train_loop_passes (quadratic c0) W lr alpha beta num_steps [] s).
    split; [exact Htrain|].
    split; [exact (post_length _ _ _ _ _ _ _ _ TP)|].
    split; [exact (post_NoDup _ _ _ _ _ _ _ _ TP)|].
    exact (post_fresh _ _ _ _ _ _ _ _ TP).
  - destruct notebook_runs as (t & H).
    destruct (notebook_cells t H) as (Hcell & Hcell').
    eexists _, _, _, _, _. split; [exact Hcell|]. split; [exact Hcell'|].
    split; [reflexivity|].
    cbn [Training.guesses Training.guesses_l1_reg Training.guesses_l2_reg].
    destruct (run_post_of _ _ _ _ _ _ _ _ _ _ _ _ (nb_run1 t H))
      as (? & ? & TP1 & _ & _).
    destruct (run_post_of _ _ _ _ _ _ _ _ _ _ _ _ (nb_run2 t H))
      as (? & ? & TP2 & _ & _).
    destruct (run_post_of _ _ _ _ _ _ _ _ _ _ _ _ (nb_run3 t H))
      as (? & ? & TP3 & _ & _).
    destruct (run_post_of _ _ _ _ _ _ _ _ _ _ _ _ (nb_run4 t H))
      as (? & ? & TP4 & _ & _).
    repeat split.
    + exact (post_length _ _ _ _ _ _ _ _ TP1).
    + exact (post_length _ _ _ _ _ _ _ _ TP2).
    + exact (post_length _ _ _ _ _ _ _ _ TP3).
    + exact (post_length _ _ _ _ _ _ _ _ TP4).
Qed.

(** Three passes of the near-sparsity loop from (8, 5). *)
Lemma train_makes_num_steps_passes_witness :
  exists guesses s',
    Nat.iter 3 (pass NearSparsity.loss_fn 0 0.04 0.75 0)
             (Some ([], one_variable)) = Some (guesses, s') /\
    length guesses = 3%nat /\
    NoDup guesses /\
    Forall (fun l => (length (tensors one_variable) <= l)%nat) guesses.
Proof.
  apply (proj1 (proj2 train_makes_num_steps_passes)
           NearSparsity.loss_fn 0%nat 0.04 0.75 0 3%nat one_variable 8 5 None).
  - right. reflexivity.
  - exists (mkVariable 0 None). repeat split; reflexivity.
  - exact I.
Defined.

(** C9.  The runs of the notebook are independent.  After the setup [W]
    shares the storage of [initial_guess] and the two other variables have
    clones of it; every call of [train] (the three of the second cell and
    the one of the third) starts with weights (8, 5); each call leaves the
    weights of the other variables and the tensor [initial_guess]
    unchanged, because the update binds [W.data] to a storage created by
    the call instead of writing into the old one. *)
Theorem training_runs_independent :
  exists s0 g1 s1 g2 s2 g3 s3 s3' g4 s4,
    let e := Training.mkEnv 0 0 1 2 g1 g2 g3 in
    (* the statements, in order *)
    Training.setup empty_store = Some ((0, 0, 1, 2)%nat, s0) /\
    Training.train Surfaces.loss_fn 0 Training.lr 0 0 Training.num_steps s0
      = Some (g1, s1) /\
    Training.train Surfaces.loss_fn 1 Training.lr Training.alpha 0
      Training.num_steps s1 = Some (g2, s2) /\
    Training.train Surfaces.loss_fn 2 Training.lr 0 Training.beta
      Training.num_steps s2 = Some (g3, s3) /\
    Training.cell empty_store = Some (e, s3) /\
    new_Variable (Training.initial_guess e) s3 = Some (3%nat, s3') /\
    Training.train NearSparsity.loss_fn 3 Training.lr Training.alpha 0
      Training.num_steps s3' = Some (g4, s4) /\
    NearSparsity.cell e s3 = Some ((3%nat, g4), s4) /\
    (* the setup: one storage shared with [initial_guess], two clones *)
    s0 = mkStore [[8; 5]; [8; 5]; [8; 5]]
                 [mkVariable 0 None; mkVariable 1 None; mkVariable 2 None] /\
    (* every run starts from (8, 5) *)
    weights s0 0 = Some [8; 5] /\
    weights s1 1 = Some [8; 5] /\
    weights s2 2 = Some [8; 5] /\
    weights s3' 3 = Some [8; 5] /\
    (* the unregularized run leaves the others alone *)
    (weights s1 1 = weights s0 1 /\ weights s1 2 = weights s0 2 /\
     tensors s1 !! 0%nat = Some [8; 5]) /\
    (* so does the L1 run *)
    (weights s2 0 = weights s1 0 /\ weights s2 2 = weights s1 2 /\
     tensors s2 !! 0%nat = Some [8; 5]) /\
    (* and the L2 run *)
    (weights s3 0 = weights s2 0 /\ weights s3 1 = weights s2 1 /\
     tensors s3 !! 0%nat = Some [8; 5]) /\
    (* and the near-sparsity run *)
    (weights s4 0 = weights s3 0 /\ weights s4 1 = weights s3 1 /\
     weights s4 2 = weights s3 2 /\ tensors s4 !! 0%nat = Some [8; 5]) /\
    (* the weights of a trained variable live in a storage made by its run *)
    (exists v, variables s1 !! 0%nat = Some v /\
               (length (tensors s0) <= data v)%nat).
Proof.
  destruct notebook_runs as (t & H).
  destruct (notebook_cells t H) as (Hcell & Hcell').
  exists (s0 t), (g1 t), (s1 t), (g2 t), (s2 t), (g3 t), (s3 t), (s3' t),
         (g4 t), (s4 t).
  cbn zeta.
  pose proof (nb_setup t H) as Hsetup.
  assert (s0 t = mkStore [[8; 5]; [8; 5]; [8; 5]]
                   [mkVariable 0 None; mkVariable 1 None; mkVariable 2 None])
    as Hs0.
  { change (Training.setup empty_store)
      with (Some ((0, 0, 1, 2)%nat,
                  mkStore [[8; 5]; [8; 5]; [8; 5]]
                    [mkVariable 0 None; mkVariable 1 None; mkVariable 2 None]))
      in Hsetup.
    injection Hsetup as <-. reflexivity. }
  destruct (nb_start1 t H) as [V1 T1]. destruct (nb_start2 t H) as [V2 T2].
  destruct (nb_start3 t H) as [V3 T3]. destruct (nb_start4 t H) as [V4 T4].
  pose proof (nb_run1 t H) as R1. pose proof (nb_run2 t H) as R2.
  pose proof (nb_run3 t H) as R3. pose proof (nb_run4 t H) as R4.
  destruct (run_final_weights _ _ _ _ _ _ _ _ _ _ _ _ R1) as (wa & Wa).
  destruct (run_final_weights _ _ _ _ _ _ _ _ _ _ _ _ R2) as (wb & Wb).
  destruct (run_final_weights _ _ _ _ _ _ _ _ _ _ _ _ R3) as (wc & Wc).
  assert (weights (s0 t) 0 = Some [8; 5]) as W00
    by (unfold weights; rewrite V1; exact T1).
  assert (weights (s0 t) 1 = Some [8; 5]) as W01 by (rewrite Hs0; reflexivity).
  assert (weights (s0 t) 2 = Some [8; 5]) as W02 by (rewrite Hs0; reflexivity).
  assert (weights (s1 t) 1 = Some [8; 5]) as W11
    by (unfold weights; rewrite V2; exact T2).
  assert (weights (s1 t) 2 = Some [8; 5]) as W12.
  { apply (weights_frame (s0 t)); [|apply (frame_run1 t H)|exact W02].
    apply (run_other_variable _ _ _ _ _ _ _ _ _ _ _ _ 2%nat R1). lia. }
  assert (weights (s2 t) 2 = Some [8; 5]) as W22
    by (unfold weights; rewrite V3; exact T3).
  assert (weights (s2 t) 0 = Some wa) as W20.
  { apply (weights_frame (s1 t)); [|apply (frame_run2 t H)|exact Wa].
    apply (run_other_variable _ _ _ _ _ _ _ _ _ _ _ _ 0%nat R2). lia. }
  assert (weights (s3 t) 0 = Some wa) as W30.
  { apply (weights_frame (s2 t)); [|apply (frame_run3 t H)|exact W20].
    apply (run_other_variable _ _ _ _ _ _ _ _ _ _ _ _ 0%nat R3). lia. }
  assert (weights (s3 t) 1 = Some wb) as W31.
  { apply (weights_frame (s2 t)); [|apply (frame_run3 t H)|exact Wb].
    apply (run_other_variable _ _ _ _ _ _ _ _ _ _ _ _ 1%nat R3). lia. }
  assert (forall r w, (r < 3)%nat -> weights (s3 t) r = Some w ->
                      weights (s4 t) r = Some w) as F4.
  { intros r w Hr Hw.
    apply (weights_frame (s3' t)); [|apply (frame_run4 t H)|].
    - apply (run_other_variable _ _ _ _ _ _ _ _ _ _ _ _ r R4). lia.
    - pose proof (nb_variable t H) as E. unfold new_Variable in E.
      injection E as _ <-. unfold weights in *. cbn [variables tensors].
      destruct (variables (s3 t) !! r) as [v|] eqn:Ev; [|discriminate Hw].
      rewrite (lookup_app_l_Some _ _ _ _ Ev). exact Hw. }
  assert (tensors (s1 t) !! 0%nat = Some [8; 5]) as I1
    by (apply (frame_run1 t H); exact T1).
  assert (tensors (s2 t) !! 0%nat = Some [8; 5]) as I2
    by (apply (frame_run2 t H); exact I1).
  assert (tensors (s3 t) !! 0%nat = Some [8; 5]) as I3
    by (apply (frame_run3 t H); exact I2).
  split; [exact Hsetup|]. split; [exact (nb_train1 t H)|].
  split; [exact (nb_train2 t H)|]. split; [exact (nb_train3 t H)|].
  split; [exact Hcell|]. split; [exact (nb_variable t H)|].
  split; [exact (nb_train4 t H)|]. split; [exact Hcell'|].
  split; [exact Hs0|].
  split; [exact W00|]. split; [exact W11|]. split; [exact W22|].
  split; [unfold weights; rewrite V4; exact T4|].
  split; [rewrite W11, W12, W01, W02; repeat split; [reflexivity..|exact I1]|].
  split; [rewrite W20, Wa, W22, W12; repeat split; [reflexivity..|exact I2]|].
  split; [rewrite W30, W20, W31, Wb; repeat split; [reflexivity..|exact I3]|].
  split.
  - rewrite (F4 0%nat wa), (F4 1%nat wb), (F4 2%nat wc), W30, W31, Wc
      by (lia || assumption).
    repeat split; try reflexivity.
    apply (frame_run4 t H), (frame_variable t H). exact I3.
  - destruct (run_post_of _ _ _ _ _ _ _ _ _ _ _ _ R1) as (wn & gn & TP & _ & _).
    destruct (post_holds _ _ _ _ _ _ _ _ TP) as (v & Hv & _).
    exists v. split; [exact Hv|].
    pose proof (post_last _ _ _ _ _ _ _ _ TP v Hv) as Hlast.
    pose proof (post_fresh _ _ _ _ _ _ _ _ TP) as Hfresh.
    specialize (Hlast ltac:(discriminate)).
    rewrite last_Some in Hlast. destruct Hlast as (l' & E).
    rewrite E in Hfresh. apply Forall_app in Hfresh.
    destruct Hfresh as [_ Hx]. inversion Hx; assumption.
Qed.


(** * Further properties *)

(** ** Calls of [train] compose *)

Lemma bind_None {A B} (m : M A) (f : A -> M B) (s : store) :
  m s = None -> bind m f s = None.
Proof. unfold bind. intros ->. reflexivity. Qed.

(** The list a pass returns is the list it was given and one more entry;
    nothing else of the pass depends on the list. *)
Lemma train_body_acc (loss_fn : vexpr -> sexpr) (W : ref) (lr alpha beta : Q)
    (acc : list loc) (s : store) :
  Training.train_body loss_fn W lr alpha beta acc s =
  match Training.train_body loss_fn W lr alpha beta [] s with
  | Some (g, s') => Some (acc ++ g, s')
  | None => None
  end.
Proof.
  unfold Training.train_body, bind, ret.
  repeat case_match; simplify_eq; reflexivity.
Qed.

Lemma train_loop_acc (loss_fn : vexpr -> sexpr) (W : ref) (lr alpha beta : Q)
    (n : nat) :
  forall (acc : list loc) (s : store),
  Training.train_loop loss_fn W lr alpha beta n acc s =
  match Training.train_loop loss_fn W lr alpha beta n [] s with
  | Some (g, s') => Some (acc ++ g, s')
  | None => None
  end.
Proof.
  induction n as [|n IH]; intros acc s.
  - cbn. rewrite app_nil_r. reflexivity.
  - cbn [Training.train_loop]. unfold bind.
    rewrite (train_body_acc loss_fn W lr alpha beta acc s).
    destruct (Training.train_body loss_fn W lr alpha beta [] s)
      as [[g1 s1]|]; [|reflexivity].
    rewrite (IH (acc ++ g1) s1), (IH g1 s1).
    destruct (Training.train_loop loss_fn W lr alpha beta n [] s1)
      as [[g2 s2]|]; [|reflexivity].
    rewrite app_assoc. reflexivity.
Qed.

Lemma train_loop_add (loss_fn : vexpr -> sexpr) (W : ref) (lr alpha beta : Q)
    (n m : nat) :
  forall (acc : list loc) (s : store),
  Training.train_loop loss_fn W lr alpha beta (n + m) acc s =
  match Training.train_loop loss_fn W lr alpha beta n acc s with
  | Some (g, s') => Training.train_loop loss_fn W lr alpha beta m g s'
  | None => None
  end.
Proof.
  induction n as [|n IH]; intros acc s; [reflexivity|].
  cbn [Nat.add Training.train_loop]. unfold bind.
  destruct (Training.train_body loss_fn W lr alpha beta acc s)
    as [[g1 s1]|]; [|reflexivity].
  apply IH.
Qed.

(** X1.  Calls compose: a call of [train] with [n + m] steps does what a
    call with [n] steps followed by a call with [m] steps on the same
    variable does, and returns the two lists one after the other; it
    raises when either of them does. *)
Theorem train_add (loss_fn : vexpr -> sexpr) (W : ref) (lr alpha beta : Q)
    (n m : nat) (s : store) :
  Training.train loss_fn W lr alpha beta (n + m) s =
  match Training.train loss_fn W lr alpha beta n s with
  | Some (g1, s1) =>
      match Training.train loss_fn W lr alpha beta m s1 with
      | Some (g2, s2) => Some (g1 ++ g2, s2)
      | None => None
      end
  | None => None
  end.
Proof.
  unfold Training.train. rewrite train_loop_add.
  destruct (Training.train_loop loss_fn W lr alpha beta n [] s)
    as [[g1 s1]|]; [|reflexivity].
  apply train_loop_acc.
Qed.

(** ** Weights too short for the loss *)

Lemma quadratic_raises (c0 alpha beta : Q) (w : tensor) :
  (length w < 2)%nat ->
  seval (Training.loss_expr (quadratic c0) alpha beta) w = None.
Proof.
  destruct w as [|a [|b w]]; cbn [length]; intros Hlen;
    [reflexivity|reflexivity|lia].
Qed.

Lemma train_body_raises (loss_fn : vexpr -> sexpr) (W : ref) (lr alpha beta : Q)
    (acc : list loc) (s : store) (w : tensor) (g : option tensor) :
  holds s W w g ->
  seval (Training.loss_expr loss_fn alpha beta) w = None ->
  Training.train_body loss_fn W lr alpha beta acc s = None.
Proof.
  intros (v & HW & Hd & Hg) Hraise.
  unfold Training.train_body.
  rewrite (bind_Some _ _ _ _ _ (get_run _ _ _ HW)).
  destruct v as [d [gl|]]; cbn [data grad] in *.
  - destruct Hg as (Hne & gb & -> & Hgl).
    rewrite (bind_Some _ _ _ _ _ (zero_run _ _ _ Hgl)).
    apply bind_None. unfold forward.
    erewrite bind_Some by (apply get_run; cbn [variables]; exact HW).
    erewrite bind_Some; cycle 1.
    { apply read_run. cbn [tensors data].
      rewrite list_lookup_insert_ne by exact Hne. exact Hd. }
    apply bind_None. unfold lift. rewrite Hraise. reflexivity.
  - erewrite bind_Some by reflexivity.
    apply bind_None. unfold forward.
    rewrite (bind_Some _ _ _ _ _ (get_run _ _ _ HW)).
    rewrite (bind_Some _ _ _ _ _ (read_run _ _ _ Hd)).
    apply bind_None. unfold lift. rewrite Hraise. reflexivity.
Qed.

(** X2.  With fewer than two weights the loss cannot be evaluated
    ([W[1]] is out of range): under either binding of [loss_fn] a call of
    [train] with at least one step raises in its first pass, whatever
    [lr], [alpha] and [beta] are; with no step it returns the empty list
    and leaves the store as it is. *)
Theorem train_short_weights (loss_fn : vexpr -> sexpr) (W : ref)
    (lr alpha beta : Q) (num_steps : nat) (s : store) (w : tensor)
    (g : option tensor) :
  loss_fn = Surfaces.loss_fn \/ loss_fn = NearSparsity.loss_fn ->
  holds s W w g ->
  (length w < 2)%nat ->
  Training.train loss_fn W lr alpha beta num_steps s =
  match num_steps with
  | O => Some ([], s)
  | S _ => None
  end.
Proof.
  intros Hlf Hh Hlen.
  destruct (notebook_loss_fn loss_fn Hlf) as (c0 & ->).
  destruct num_steps as [|n]; [reflexivity|].
  unfold Training.train. cbn [Training.train_loop].
  apply bind_None.
  exact (train_body_raises _ _ _ _ _ _ _ w g Hh
           (quadratic_raises c0 alpha beta w Hlen)).
Qed.

(** One weight instead of two, three steps asked. *)
Lemma train_short_weights_witness :
  Training.train Surfaces.loss_fn 0 0.04 0.75 0 3
    (mkStore [[8]] [mkVariable 0 None]) = None.
Proof.
  apply (train_short_weights Surfaces.loss_fn 0 0.04 0.75 0 3
           (mkStore [[8]] [mkVariable 0 None]) [8] None).
  - left. reflexivity.
  - exists (mkVariable 0 None). repeat split; reflexivity.
  - cbn. lia.
Defined.

(** ** The general step *)

Lemma step2_proper (c0 lr alpha beta : Q) (p : Q * Q) (x y : Q) :
  x == fst p -> y == snd p ->
  fst (step2 c0 lr alpha beta p)
    == x - lr * ((x - c0) + alpha * Qsgn x + 2 * beta * x) /\
  snd (step2 c0 lr alpha beta p)
    == y - lr * (5 * (y - 2) + alpha * Qsgn y + 2 * beta * y).
Proof. intros -> ->. split; reflexivity. Qed.

(** X3.  What [train] computes.  On a variable with two weights, under the
    binding of [loss_fn] with minimum [c0] in the first coordinate (3 in
    the second cell, 0.3 in the third), every step maps the weights
    (w0, w1) to
    (w0 - lr*((w0-c0) + alpha*sign(w0) + 2*beta*w0),
     w1 - lr*(5*(w1-2) + alpha*sign(w1) + 2*beta*w1)),
    for every [lr], [alpha], [beta] and number of steps; the gradient the
    variable carries when [train] is called plays no part. *)
Theorem train_step_rule (loss_fn : vexpr -> sexpr) (c0 : Q) (W : ref)
    (lr alpha beta : Q) (num_steps : nat) (s : store) (a b : Q)
    (g : option tensor) :
  (loss_fn = Surfaces.loss_fn /\ c0 = 3) \/
  (loss_fn = NearSparsity.loss_fn /\ c0 = 0.3) ->
  holds s W [a; b] g ->
  buffer_ok g ->
  exists guesses s' traj,
    Training.train loss_fn W lr alpha beta num_steps s = Some (guesses, s') /\
    snapshots s' guesses = map Some traj /\
    length traj = num_steps /\
    forall i : nat, (i < num_steps)%nat ->
      exists w0 w1 w0' w1',
        ([a; b] :: traj) !! i = Some [w0; w1] /\
        traj !! i = Some [w0'; w1'] /\
        w0' == w0 - lr * ((w0 - c0) + alpha * Qsgn w0 + 2 * beta * w0) /\
        w1' == w1 - lr * (5 * (w1 - 2) + alpha * Qsgn w1 + 2 * beta * w1).
Proof.
  intros Hlf Hh Hg.
  assert (loss_fn = quadratic c0) as ->
    by (destruct Hlf as [[-> ->]|[-> ->]]; reflexivity).
  destruct (train_two c0 lr alpha beta num_steps s W a b g Hh Hg)
    as (guesses & s' & traj & Htrain & R).
  exists guesses, s', traj. split; [exact Htrain|].
  split; [exact (run_snapshots _ _ _ _ _ _ _ _ _ _ _ _ R)|].
  split; [exact (run_length _ _ _ _ _ _ _ _ _ _ _ _ R)|].
  intros i Hi.
  destruct (run_steps _ _ _ _ _ _ _ _ _ _ _ _ i R Hi)
    as (w0 & w1 & w0' & w1' & Hprev & Hcur & E0 & E1 & E0' & E1').
  cbn zeta in E0, E1, E0', E1'.
  destruct (step2_proper c0 lr alpha beta _ w0 w1 E0 E1) as [S0 S1].
  exists w0, w1, w0', w1'.
  split; [exact Hprev|]. split; [exact Hcur|].
  split; [rewrite E0'; exact S0|rewrite E1'; exact S1].
Qed.

(** The near-sparsity binding, four steps, a stale gradient in [W.grad]. *)
Lemma train_step_rule_witness :
  exists guesses s' traj,
    Training.train NearSparsity.loss_fn 0 0.04 0.75 0.75 4
      (mkStore [[8; 5]; [100; - (100)]] [mkVariable 0 (Some 1%nat)])
      = Some (guesses, s') /\
    snapshots s' guesses = map Some traj /\
    length traj = 4%nat /\
    forall i : nat, (i < 4)%nat ->
      exists w0 w1 w0' w1',
        ([8; 5] :: traj) !! i = Some [w0; w1] /\
        traj !! i = Some [w0'; w1'] /\
        w0' == w0 - 0.04 * ((w0 - 0.3) + 0.75 * Qsgn w0 + 2 * 0.75 * w0) /\
        w1' == w1 - 0.04 * (5 * (w1 - 2) + 0.75 * Qsgn w1 + 2 * 0.75 * w1).
Proof.
  apply (train_step_rule NearSparsity.loss_fn 0.3 0 0.04 0.75 0.75 4
           (mkStore [[8; 5]; [100; - (100)]] [mkVariable 0 (Some 1%nat)])
           8 5 (Some [100; - (100)])).
  - right. split; reflexivity.
  - exists (mkVariable 0 (Some 1%nat)). split; [reflexivity|].
    split; [reflexivity|]. split; [discriminate|].
    exists [100; - (100)]. split; reflexivity.
  - reflexivity.
Defined.

(** X4.  What [train] leaves alone.  A call on a variable with two weights
    changes no other variable and creates none; of the storages that
    existed it writes only the gradient buffer of [W]: in particular the
    storage [W.data] referred to at the call still holds the initial
    weights, so a tensor that shares it is not changed; and every entry of
    the returned list is a storage made by the call. *)
Theorem train_frame (loss_fn : vexpr -> sexpr) (W : ref) (lr alpha beta : Q)
    (num_steps : nat) (s : store) (a b : Q) (g : option tensor)
    (v : variable) :
  loss_fn = Surfaces.loss_fn \/ loss_fn = NearSparsity.loss_fn ->
  variables s !! W = Some v ->
  holds s W [a; b] g ->
  buffer_ok g ->
  exists guesses s',
    Training.train loss_fn W lr alpha beta num_steps s = Some (guesses, s') /\
    (forall r, r <> W -> variables s' !! r = variables s !! r) /\
    length (variables s') = length (variables s) /\
    (forall l t, tensors s !! l = Some t -> grad v <> Some l ->
                 tensors s' !! l = Some t) /\
    tensors s' !! data v = Some [a; b] /\
    Forall (fun l => (length (tensors s) <= l)%nat) guesses.
Proof.
  intros Hlf HW Hh Hg.
  destruct (notebook_loss_fn loss_fn Hlf) as (c0 & ->).
  destruct (train_two c0 lr alpha beta num_steps s W a b g Hh Hg)
    as (guesses & s' & traj & Htrain & R).
  destruct (run_post_of _ _ _ _ _ _ _ _ _ _ _ _ R) as (wn & gn & TP & _ & _).
  assert (forall l t, tensors s !! l = Some t -> grad v <> Some l ->
                      tensors s' !! l = Some t) as Hframe.
  { intros l t Hl Hgrad.
    rewrite (post_tensors _ _ _ _ _ _ _ _ TP l v HW Hgrad
               (lookup_lt_Some _ _ _ Hl)).
    exact Hl. }
  exists guesses, s'. split; [exact Htrain|].
  split; [exact (post_variables _ _ _ _ _ _ _ _ TP)|].
  split; [exact (post_nvariables _ _ _ _ _ _ _ _ TP)|].
  split; [exact Hframe|].
  split; [|exact (post_fresh _ _ _ _ _ _ _ _ TP)].
  destruct Hh as (v' & HW' & Hd & Hgl).
  rewrite HW in HW'. injection HW' as <-.
  apply Hframe; [exact Hd|].
  destruct (grad v) as [gl|]; [|discriminate].
  destruct Hgl as [Hne _]. congruence.
Qed.

(** Two variables that share one storage; the first is trained. *)
Lemma train_frame_witness :
  exists guesses s',
    Training.train Surfaces.loss_fn 0 0.04 0.75 0 3
      (mkStore [[8; 5]] [mkVariable 0 None; mkVariable 0 None])
      = Some (guesses, s') /\
    (forall r, r <> 0%nat ->
       variables s' !! r
       = variables (mkStore [[8; 5]] [mkVariable 0 None; mkVariable 0 None])
           !! r) /\
    length (variables s') = 2%nat /\
    (forall l t,
       tensors (mkStore [[8; 5]] [mkVariable 0 None; mkVariable 0 None]) !! l
         = Some t ->
       grad (mkVariable 0 None) <> Some l ->
       tensors s' !! l = Some t) /\
    tensors s' !! data (mkVariable 0 None) = Some [8; 5] /\
    Forall (fun l => (1 <= l)%nat) guesses.
Proof.
  apply (train_frame Surfaces.loss_fn 0 0.04 0.75 0 3
           (mkStore [[8; 5]] [mkVariable 0 None; mkVariable 0 None])
           8 5 None (mkVariable 0 None)).
  - left. reflexivity.
  - reflexivity.
  - exists (mkVariable 0 None). repeat split; reflexivity.
  - exact I.
Defined.

(** ** The gradient buffer after a call *)

Lemma sgd_update_two_grad (c0 lr alpha beta : Q) (w : tensor) (p : Q * Q)
    (g : option tensor) :
  two w p -> buffer_ok g ->
  exists w' g',
    sgd_update (Training.loss_expr (quadratic c0) alpha beta) lr w g
      = Some (w', g') /\
    two g' (grad2 c0 alpha beta p).
Proof.
  intros (a & b & -> & Ha & Hb) Hg.
  destruct g as [[|x [|y [|z gb]]]|]; try discriminate Hg;
    (eexists _, _; split; [cbn; reflexivity|]);
    (eexists _, _; split; [reflexivity|]);
    cbn [grad2 fst snd]; rewrite <- Ha, <- Hb;
    change (2 - 1)%Z with 1%Z; change (inject_Z 2) with 2;
    split; ring.
Qed.

Lemma sgd_run_two_grad (c0 lr alpha beta : Q) (n : nat) :
  forall (w : tensor) (p : Q * Q) (g : option tensor),
  two w p -> buffer_ok g ->
  exists traj wn gn,
    sgd_run (Training.loss_expr (quadratic c0) alpha beta) lr (S n) w g
      = Some (traj, wn, Some gn) /\
    two gn (grad2 c0 alpha beta (Nat.iter n (step2 c0 lr alpha beta) p)).
Proof.
  induction n as [|n IH]; intros w p g Hw Hg.
  - destruct (sgd_update_two_grad c0 lr alpha beta w p g Hw Hg)
      as (w' & g' & Hup & Hg').
    exists [w'], w', g'. cbn [sgd_run]. rewrite Hup. split; [reflexivity|].
    exact Hg'.
  - destruct (sgd_update_two c0 lr alpha beta w p g Hw Hg)
      as (w' & g' & Hup & Hw' & Hlen).
    destruct (IH w' (step2 c0 lr alpha beta p) (Some g') Hw' Hlen)
      as (traj & wn & gn & Hrun & Hgn).
    exists (w' :: traj), wn, gn.
    change (sgd_run (Training.loss_expr (quadratic c0) alpha beta) lr
              (S (S n)) w g)
      with (match sgd_update (Training.loss_expr (quadratic c0) alpha beta)
                    lr w g with
            | Some (w', g') =>
                match sgd_run (Training.loss_expr (quadratic c0) alpha beta)
                        lr (S n) w' (Some g') with
                | Some (traj, wn, gn) => Some (w' :: traj, wn, gn)
                | None => None
                end
            | None => None
            end).
    rewrite Hup, Hrun. split; [reflexivity|].
    rewrite Nat.iter_succ_r. exact Hgn.
Qed.

(** X5.  Gradients do not add up over the steps.  After a call of [train]
    with at least one step, [W.grad] holds the gradient of the loss at the
    weights the last pass started from, and nothing of the earlier passes
    or of what it held before the call; the final weights are those
    weights minus [lr] times [W.grad]. *)
Theorem train_gradient_buffer (loss_fn : vexpr -> sexpr) (c0 : Q) (W : ref)
    (lr alpha beta : Q) (n : nat) (s : store) (a b : Q) (g : option tensor) :
  (loss_fn = Surfaces.loss_fn /\ c0 = 3) \/
  (loss_fn = NearSparsity.loss_fn /\ c0 = 0.3) ->
  holds s W [a; b] g ->
  buffer_ok g ->
  exists guesses s' traj v gl g0 g1 w0 w1 w0' w1',
    Training.train loss_fn W lr alpha beta (S n) s = Some (guesses, s') /\
    snapshots s' guesses = map Some traj /\
    variables s' !! W = Some v /\
    grad v = Some gl /\
    tensors s' !! gl = Some [g0; g1] /\
    tensors s' !! data v = Some [w0'; w1'] /\
    ([a; b] :: traj) !! n = Some [w0; w1] /\
    traj !! n = Some [w0'; w1'] /\
    g0 == (w0 - c0) + alpha * Qsgn w0 + 2 * beta * w0 /\
    g1 == 5 * (w1 - 2) + alpha * Qsgn w1 + 2 * beta * w1 /\
    w0' == w0 - lr * g0 /\
    w1' == w1 - lr * g1.
Proof.
  intros Hlf Hh Hg.
  assert (loss_fn = quadratic c0) as ->
    by (destruct Hlf as [[-> ->]|[-> ->]]; reflexivity).
  assert (two [a; b] (a, b)) as Hw by (exists a, b; repeat split; reflexivity).
  destruct (sgd_run_two_grad c0 lr alpha beta n [a; b] (a, b) g Hw Hg)
    as (traj & wn & gn & Hrun & Hgn).
  destruct (sgd_run_two c0 lr alpha beta (S n) [a; b] (a, b) g Hw Hg)
    as (traj' & wn' & gn' & Hrun' & _ & Hwn & Htraj).
  rewrite Hrun in Hrun'. injection Hrun' as <- <- <-.
  destruct (train_spec (quadratic c0) W lr alpha beta (S n) s [a; b] g
              traj wn (Some gn) Hh Hrun) as (guesses & s' & Htrain & TP).
  pose proof (sgd_run_last _ _ _ _ _ _ _ _ Hrun) as Hlast.
  destruct (post_holds _ _ _ _ _ _ _ _ TP) as (v & Hv & Hd & Hgl).
  destruct (grad v) as [gl|] eqn:Egrad; [|discriminate Hgl].
  destruct Hgl as (_ & gb & Egb & Hgb). injection Egb as <-.
  destruct Hgn as (g0 & g1 & -> & G0 & G1).
  destruct Hwn as (w0' & w1' & -> & E0' & E1').
  assert (exists w0 w1, ([a; b] :: traj) !! n = Some [w0; w1] /\
            w0 == fst (Nat.iter n (step2 c0 lr alpha beta) (a, b)) /\
            w1 == snd (Nat.iter n (step2 c0 lr alpha beta) (a, b)))
    as (w0 & w1 & Hprev & E0 & E1).
  { destruct n as [|j].
    - exists a, b. repeat split; reflexivity.
    - pose proof (sgd_run_length _ _ _ _ _ _ _ _ Hrun) as Hlen.
      destruct (lookup_lt_is_Some_2 traj j ltac:(lia)) as (wj & Hwj).
      destruct (Htraj j wj Hwj) as (w0 & w1 & -> & E0 & E1).
      exists w0, w1. split; [exact Hwj|]. split; assumption. }
  exists guesses, s', traj, v, gl, g0, g1, w0, w1, w0', w1'.
  split; [exact Htrain|].
  split; [exact (post_snapshots _ _ _ _ _ _ _ _ TP)|].
  split; [exact Hv|]. split; [exact Egrad|].
  split; [exact Hgb|]. split; [exact Hd|].
  split; [exact Hprev|]. split; [exact Hlast|].
  cbn [grad2 fst snd] in G0, G1. rewrite <- E0 in G0. rewrite <- E1 in G1.
  split; [exact G0|]. split; [exact G1|].
  change (Nat.iter (S n) (step2 c0 lr alpha beta) (a, b))
    with (step2 c0 lr alpha beta (Nat.iter n (step2 c0 lr alpha beta) (a, b)))
    in E0', E1'.
  destruct (step2_proper c0 lr alpha beta _ w0 w1 E0 E1) as [S0 S1].
  rewrite S0 in E0'. rewrite S1 in E1'.
  rewrite G0, G1. split; assumption.
Qed.

(** Three unregularized steps from (8, 5). *)
Lemma train_gradient_buffer_witness :
  exists guesses s' traj v gl g0 g1 w0 w1 w0' w1',
    Training.train Surfaces.loss_fn 0 0.04 0 0 3 one_variable
      = Some (guesses, s') /\
    snapshots s' guesses = map Some traj /\
    variables s' !! 0%nat = Some v /\
    grad v = Some gl /\
    tensors s' !! gl = Some [g0; g1] /\
    tensors s' !! data v = Some [w0'; w1'] /\
    ([8; 5] :: traj) !! 2%nat = Some [w0; w1] /\
    traj !! 2%nat = Some [w0'; w1'] /\
    g0 == (w0 - 3) + 0 * Qsgn w0 + 2 * 0 * w0 /\
    g1 == 5 * (w1 - 2) + 0 * Qsgn w1 + 2 * 0 * w1 /\
    w0' == w0 - 0.04 * g0 /\
    w1' == w1 - 0.04 * g1.
Proof.
  apply (train_gradient_buffer Surfaces.loss_fn 3 0 0.04 0 0 2
           one_variable 8 5 None).
  - left. split; reflexivity.
  - exists (mkVariable 0 None). repeat split; reflexivity.
  - exact I.
Defined.

(** ** Closed forms of the regularized runs *)








(** X8.  Zero is not a resting point.  [sign(0)] is 0, so at a weight that
    is exactly 0 the L1 penalty contributes nothing to the step: from
    [w0 = 0] the next value is [lr * c0] and from [w1 = 0] it is
    [10 * lr], whatever [alpha] and [beta] are. *)
Theorem train_leaves_zero (loss_fn : vexpr -> sexpr) (c0 : Q) (W : ref)
    (lr alpha beta : Q) (num_steps : nat) (s : store) (a b : Q)
    (g : option tensor) :
  (loss_fn = Surfaces.loss_fn /\ c0 = 3) \/
  (loss_fn = NearSparsity.loss_fn /\ c0 = 0.3) ->
  holds s W [a; b] g ->
  buffer_ok g ->
  exists guesses s' traj,
    Training.train loss_fn W lr alpha beta num_steps s = Some (guesses, s') /\
    snapshots s' guesses = map Some traj /\
    forall i : nat, (i < num_steps)%nat ->
      exists w0 w1 w0' w1',
        ([a; b] :: traj) !! i = Some [w0; w1] /\
        traj !! i = Some [w0'; w1'] /\
        (w0 == 0 -> w0' == lr * c0) /\
        (w1 == 0 -> w1' == 10 * lr).
Proof.
  intros Hlf Hh Hg.
  assert (loss_fn = quadratic c0) as ->
    by (destruct Hlf as [[-> ->]|[-> ->]]; reflexivity).
  destruct (train_two c0 lr alpha beta num_steps s W a b g Hh Hg)
    as (guesses & s' & traj & Htrain & R).
  exists guesses, s', traj. split; [exact Htrain|].
  split; [exact (run_snapshots _ _ _ _ _ _ _ _ _ _ _ _ R)|].
  intros i Hi.
  destruct (run_steps _ _ _ _ _ _ _ _ _ _ _ _ i R Hi)
    as (w0 & w1 & w0' & w1' & Hprev & Hcur & E0 & E1 & E0' & E1').
  cbn zeta in E0, E1, E0', E1'.
  destruct (step2_proper c0 lr alpha beta _ w0 w1 E0 E1) as [S0 S1].
  exists w0, w1, w0', w1'.
  split; [exact Hprev|]. split; [exact Hcur|]. split.
  - intros Hz. rewrite E0', S0, Hz. change (Qsgn 0) with 0. ring.
  - intros Hz. rewrite E1', S1, Hz. change (Qsgn 0) with 0. ring.
Qed.

(** One near-sparsity step from the weights (0, 0). *)
Lemma train_leaves_zero_witness :
  exists guesses s' traj,
    Training.train NearSparsity.loss_fn 0 0.04 0.75 0 1
      (mkStore [[0; 0]] [mkVariable 0 None]) = Some (guesses, s') /\
    snapshots s' guesses = map Some traj /\
    forall i : nat, (i < 1)%nat ->
      exists w0 w1 w0' w1',
        ([0; 0] :: traj) !! i = Some [w0; w1] /\
        traj !! i = Some [w0'; w1'] /\
        (w0 == 0 -> w0' == 0.04 * 0.3) /\
        (w1 == 0 -> w1' == 10 * 0.04).
Proof.
  apply (train_leaves_zero NearSparsity.loss_fn 0.3 0 0.04 0.75 0 1
           (mkStore [[0; 0]] [mkVariable 0 None]) 0 0 None).
  - right. split; reflexivity.
  - exists (mkVariable 0 None). repeat split; reflexivity.
  - exact I.
Defined.

(** ** The solutions printed at the end of the second cell *)



Section Final.

Variable t : trace.
Hypothesis H : notebook_trace t.




End Final.






(** ** The report of the last cell *)

Lemma py_index_nat {A} (l : list A) (i : nat) :
  py_index l (Z.of_nat i) = l !! i.
Proof.
  unfold py_index. destruct (Z.leb_spec 0 (Z.of_nat i)); [|lia].
  rewrite Nat2Z.id. reflexivity.
Qed.

Lemma py_index_before {A} (l : list A) (i : nat) :
  py_index l (Z.of_nat i - 1) =
  l !! (match i with O => length l - 1 | S j => j end)%nat.
Proof.
  destruct i as [|j].
  - unfold py_index. change (Z.of_nat 0 - 1)%Z with (-1)%Z. cbn [Z.leb Z.compare].
    destruct l as [|x l]; [reflexivity|].
    destruct (Z.leb_spec (- Z.of_nat (length (x :: l))) (-1)) as [_|Hlt];
      [|cbn [length] in Hlt; lia].
    f_equal. cbn [length]. lia.
  - replace (Z.of_nat (S j) - 1)%Z with (Z.of_nat j) by lia.
    apply py_index_nat.
Qed.

Lemma column_first (it_array : list tensor) :
  it_array <> [] ->
  Forall (fun w => length w = 2%nat) it_array ->
  exists c, Report.column it_array 0 = Some c /\
    length c = length it_array /\
    forall i w0 w1, it_array !! i = Some [w0; w1] -> c !! i = Some w0.
Proof.
  intros Hne Hall.
  exists (map (fun w => default 0 (w !! 0%nat)) it_array).
  split; [|split].
  - unfold Report.column. destruct it_array as [|w l]; [contradiction|].
    apply mapM_Some_2, Forall2_fmap_r, Forall_Forall2_diag.
    eapply Forall_impl; [exact Hall|].
    intros [|x [|y [|z r]]] Hlen; try discriminate Hlen. reflexivity.
  - apply length_map.
  - intros i w0 w1 Hi. rewrite list_lookup_fmap, Hi. reflexivity.
Qed.

Lemma lines_spec (it_array : list tensor) :
  Forall (fun w => length w = 2%nat) it_array ->
  exists rows,
    Report.lines it_array = Some rows /\
    length rows = length it_array /\
    forall i w0 w1,
      it_array !! i = Some [w0; w1] ->
      exists v0 v1,
        it_array !! (match i with
                     | O => length it_array - 1
                     | S j => j
                     end)%nat = Some [v0; v1] /\
        rows !! i = Some (w0, Qabs (w0 - v0)).
Proof.
  intros Hall.
  destruct (decide (it_array = [])) as [->|Hne].
  { exists []. split; [reflexivity|]. split; [reflexivity|].
    intros i w0 w1 Hi. discriminate Hi. }
  destruct (column_first it_array Hne Hall) as (c & Hc & Hlen & Hcol).
  assert (forall i, (i < length it_array)%nat ->
            exists w0 w1, it_array !! i = Some [w0; w1]) as Hrow.
  { intros i Hi. destruct (lookup_lt_is_Some_2 it_array i Hi) as (w & Hw).
    pose proof (Forall_lookup_1 _ _ _ _ Hall Hw) as Hl.
    destruct w as [|x [|y [|z r]]]; try discriminate Hl.
    exists x, y. exact Hw. }
  assert (forall i, (i < length it_array)%nat ->
            (match i with O => length it_array - 1 | S j => j end
             < length it_array)%nat) as Hprev.
  { intros i Hi. destruct i; lia. }
  set (prev i := (match i with O => length it_array - 1 | S j => j end)%nat).
  set (row i := (default 0 (c !! i),
                 Qabs (default 0 (c !! i) - default 0 (c !! prev i)))).
  assert (forall i, (i < length it_array)%nat ->
            Report.line it_array i = Some (row i)) as Hline.
  { intros i Hi. unfold Report.line. rewrite Hc. cbn [mbind option_bind].
    rewrite py_index_nat, py_index_before, Hlen. fold (prev i).
    destruct (Hrow i Hi) as (w0 & w1 & Hw).
    destruct (Hrow (prev i) (Hprev i Hi)) as (v0 & v1 & Hv).
    unfold row. rewrite (Hcol _ _ _ Hw), (Hcol _ _ _ Hv). reflexivity. }
  exists (map row (seq 0 (length it_array))).
  split; [|split].
  - unfold Report.lines.
    apply mapM_Some_2, Forall2_fmap_r, Forall_Forall2_diag.
    apply Forall_seq. intros i Hi. apply Hline. lia.
  - rewrite length_map, length_seq. reflexivity.
  - intros i w0 w1 Hw.
    pose proof (lookup_lt_Some _ _ _ Hw) as Hi.
    destruct (Hrow (prev i) (Hprev i Hi)) as (v0 & v1 & Hv).
    exists v0, v1. split; [exact Hv|].
    rewrite list_lookup_fmap, lookup_seq_lt by exact Hi.
    cbn. unfold row. rewrite (Hcol _ _ _ Hw), (Hcol _ _ _ Hv). reflexivity.
Qed.

(** X10.  The lines of the last cell, for any array of two-element rows.
    There is one line per row; line [i] shows [w0] of row [i] and its
    distance to [w0] of row [i-1], and for the first line the index [-1]
    wraps around: it is compared with the last row of the array. *)
Theorem report_first_line_wraps (it_array : list tensor) :
  Forall (fun w => length w = 2%nat) it_array ->
  exists rows,
    Report.lines it_array = Some rows /\
    length rows = length it_array /\
    forall i w0 w1,
      it_array !! i = Some [w0; w1] ->
      exists v0 v1,
        it_array !! (match i with
                     | O => length it_array - 1
                     | S j => j
                     end)%nat = Some [v0; v1] /\
        rows !! i = Some (w0, Qabs (w0 - v0)).
Proof. exact (lines_spec it_array). Qed.

(** Three rows. *)
Lemma report_first_line_wraps_witness :
  exists rows,
    Report.lines [[1; 2]; [3; 4]; [7; 8]] = Some rows /\
    length rows = length [[1; 2]; [3; 4]; [7; 8]] /\
    forall i w0 w1,
      [[1; 2]; [3; 4]; [7; 8]] !! i = Some [w0; w1] ->
      exists v0 v1,
        [[1; 2]; [3; 4]; [7; 8]]
          !! (match i with
              | O => length [[1; 2]; [3; 4]; [7; 8]] - 1
              | S j => j
              end)%nat = Some [v0; v1] /\
        rows !! i = Some (w0, Qabs (w0 - v0)).
Proof.
  apply (report_first_line_wraps [[1; 2]; [3; 4]; [7; 8]]).
  repeat constructor.
Defined.







(** ** Evaluation on meshes *)





Lemma shaped_element (r c : nat) (m : mesh) (i j : nat) :
  shaped r c m -> (i < r)%nat -> (j < c)%nat -> is_Some (element m i j).
Proof.
  intros [Hr Hc] Hi Hj. unfold element.
  destruct (lookup_lt_is_Some_2 m i ltac:(lia)) as (row & Hrow).
  rewrite Hrow. cbn. apply lookup_lt_is_Some_2.
  rewrite (Forall_lookup_1 _ _ _ _ Hc Hrow). exact Hj.
Qed.

Lemma point_Some (r c : nat) (W : list mesh) (i j : nat) :
  Forall (shaped r c) W -> (i < r)%nat -> (j < c)%nat ->
  exists w, point W i j = Some w /\
    forall k, w !! k = m ← W !! k; element m i j.
Proof.
  intros HW Hi Hj. induction W as [|m W IH].
  - exists []. split; [reflexivity|]. intros k. reflexivity.
  - apply Forall_cons in HW. destruct HW as [Hm HW].
    destruct (IH HW) as (w & Hw & Hk).
    destruct (shaped_element r c m i j Hm Hi Hj) as (x & Hx).
    exists (x :: w). split.
    + unfold point in *. cbn [mapM]. rewrite Hx, Hw. reflexivity.
    + intros [|k]; [cbn; rewrite Hx; reflexivity|apply Hk].
Qed.
















(** ** The backward pass against the forward pass *)

(** X15.  [loss.backward()] computes the gradient of what the forward pass
    computes.  For the smooth part of the loss (the quadratic and the L2
    penalty) the value at a displaced point is the value, plus the
    gradient applied to the displacement, plus a term of second order in
    the displacement. *)
Lemma gradient_is_derivative (c0 beta w0 w1 h k : Q) :
  exists v v' g0 g1,
    seval (Training.loss_expr (quadratic c0) 0 beta) [w0; w1] = Some v /\
    seval (Training.loss_expr (quadratic c0) 0 beta) [w0 + h; w1 + k]
      = Some v' /\
    gradient (Training.loss_expr (quadratic c0) 0 beta) [w0; w1]
      = Some [g0; g1] /\
    v' == v + (h * g0 + k * g1)
          + ((0.5 + beta) * (h * h) + (2.5 + beta) * (k * k)).
Proof.
  eexists _, _, _, _.
  split; [reflexivity|]. split; [reflexivity|]. split; [reflexivity|].
  cbn [vsum foldr map veval].
  change (2 - 1)%Z with 1%Z. change (inject_Z 2) with 2. ring.
Qed.

(** X16.  The gradient of the L1 penalty.  Between two points where no
    weight changes sign, [W.norm(1)] moves by exactly the gradient that
    the backward pass computes, applied to the displacement. *)
Lemma gradient_norm1_is_derivative (w0 w1 h k : Q) :
  Qsgn (w0 + h) == Qsgn w0 -> Qsgn (w1 + k) == Qsgn w1 ->
  exists v v' g0 g1,
    seval (Training.L1_regularization Leaf) [w0; w1] = Some v /\
    seval (Training.L1_regularization Leaf) [w0 + h; w1 + k] = Some v' /\
    gradient (Training.L1_regularization Leaf) [w0; w1] = Some [g0; g1] /\
    v' == v + (h * g0 + k * g1).
Proof.
  intros H0 H1.
  assert (forall x : Q, Qabs x == x * Qsgn x) as Habs.
  { intros x. destruct (Qlt_le_dec 0 x) as [Hx|Hx].
    - rewrite (Qsgn_pos x Hx), Qabs_pos by lra. ring.
    - destruct (Qlt_le_dec x 0) as [Hx'|Hx'].
      + rewrite (Qsgn_neg x Hx'), Qabs_neg by lra. ring.
      + assert (x == 0) as -> by lra. reflexivity. }
  eexists _, _, _, _.
  split; [reflexivity|]. split; [reflexivity|]. split; [reflexivity|].
  cbn [vsum foldr map veval].
  rewrite !Habs, H0, H1. ring.
Qed.

(** From (8, 5) to (7, 5.5). *)
Lemma gradient_norm1_is_derivative_witness :
  exists v v' g0 g1,
    seval (Training.L1_regularization Leaf) [8; 5] = Some v /\
    seval (Training.L1_regularization Leaf) [8 + - (1); 5 + 0.5] = Some v' /\
    gradient (Training.L1_regularization Leaf) [8; 5] = Some [g0; g1] /\
    v' == v + (- (1) * g0 + 0.5 * g1).
Proof.
  apply (gradient_norm1_is_derivative 8 5 (- (1)) 0.5); reflexivity.
Defined.

(** ** The regularized runs of the second cell *)






(** ** The two weights do not interact *)

Lemma step2_snd (c0 c0' lr alpha beta : Q) (p p' : Q * Q) :
  snd p == snd p' ->
  snd (step2 c0 lr alpha beta p) == snd (step2 c0' lr alpha beta p').
Proof. intros E. unfold step2. cbn [snd]. rewrite E. reflexivity. Qed.

Lemma step2_fst (c0 lr alpha beta : Q) (p p' : Q * Q) :
  fst p == fst p' ->
  fst (step2 c0 lr alpha beta p) == fst (step2 c0 lr alpha beta p').
Proof. intros E. unfold step2. cbn [fst]. rewrite E. reflexivity. Qed.

Lemma iter_step2_snd (c0 c0' lr alpha beta : Q) (a a' b : Q) (n : nat) :
  snd (Nat.iter n (step2 c0 lr alpha beta) (a, b))
  == snd (Nat.iter n (step2 c0' lr alpha beta) (a', b)).
Proof.
  induction n as [|n IH]; [reflexivity|].
  change (Nat.iter (S n) ?f ?x) with (f (Nat.iter n f x)).
  apply step2_snd. exact IH.
Qed.

Lemma iter_step2_fst (c0 lr alpha beta : Q) (a b b' : Q) (n : nat) :
  fst (Nat.iter n (step2 c0 lr alpha beta) (a, b))
  == fst (Nat.iter n (step2 c0 lr alpha beta) (a, b')).
Proof.
  induction n as [|n IH]; [reflexivity|].
  change (Nat.iter (S n) ?f ?x) with (f (Nat.iter n f x)).
  apply step2_fst. exact IH.
Qed.

(** X18.  The two weights do not interact.  The loss is a sum of a term in
    [w0] and a term in [w1], so the sequence of second weights that
    [train] records depends on the second starting weight only: it is the
    same under both bindings of [loss_fn] and for any first starting
    weight; and the sequence of first weights, under one binding, does not
    depend on the second starting weight. *)
Theorem train_weights_do_not_interact (W W' W'' : ref) (lr alpha beta : Q)
    (num_steps : nat) (s s' s'' : store) (a a' b b' : Q)
    (g g' g'' : option tensor) :
  holds s W [a; b] g -> buffer_ok g ->
  holds s' W' [a'; b] g' -> buffer_ok g' ->
  holds s'' W'' [a; b'] g'' -> buffer_ok g'' ->
  exists guesses s1 traj guesses' s1' traj' guesses'' s1'' traj'',
    Training.train Surfaces.loss_fn W lr alpha beta num_steps s
      = Some (guesses, s1) /\
    snapshots s1 guesses = map Some traj /\
    Training.train NearSparsity.loss_fn W' lr alpha beta num_steps s'
      = Some (guesses', s1') /\
    snapshots s1' guesses' = map Some traj' /\
    Training.train Surfaces.loss_fn W'' lr alpha beta num_steps s''
      = Some (guesses'', s1'') /\
    snapshots s1'' guesses'' = map Some traj'' /\
    forall i : nat, (i < num_steps)%nat ->
      exists w0 w1 w0' w1' w0'' w1'',
        traj !! i = Some [w0; w1] /\
        traj' !! i = Some [w0'; w1'] /\
        traj'' !! i = Some [w0''; w1''] /\
        w1' == w1 /\ w0'' == w0.
Proof.
  intros Hh Hg Hh' Hg' Hh'' Hg''.
  destruct (train_two 3 lr alpha beta num_steps s W a b g Hh Hg)
    as (guesses & s1 & traj & Htrain & R).
  destruct (train_two 0.3 lr alpha beta num_steps s' W' a' b g' Hh' Hg')
    as (guesses' & s1' & traj' & Htrain' & R').
  destruct (train_two 3 lr alpha beta num_steps s'' W'' a b' g'' Hh'' Hg'')
    as (guesses'' & s1'' & traj'' & Htrain'' & R'').
  exists guesses, s1, traj, guesses', s1', traj', guesses'', s1'', traj''.
  split; [exact Htrain|].
  split; [exact (run_snapshots _ _ _ _ _ _ _ _ _ _ _ _ R)|].
  split; [exact Htrain'|].
  split; [exact (run_snapshots _ _ _ _ _ _ _ _ _ _ _ _ R')|].
  split; [exact Htrain''|].
  split; [exact (run_snapshots _ _ _ _ _ _ _ _ _ _ _ _ R'')|].
  intros i Hi.
  destruct (run_steps _ _ _ _ _ _ _ _ _ _ _ _ i R Hi)
    as (_ & _ & w0 & w1 & _ & Hcur & _ & _ & E0 & E1).
  destruct (run_steps _ _ _ _ _ _ _ _ _ _ _ _ i R' Hi)
    as (_ & _ & w0' & w1' & _ & Hcur' & _ & _ & E0' & E1').
  destruct (run_steps _ _ _ _ _ _ _ _ _ _ _ _ i R'' Hi)
    as (_ & _ & w0'' & w1'' & _ & Hcur'' & _ & _ & E0'' & E1'').
  cbv zeta in E0, E1, E0', E1', E0'', E1''.
  exists w0, w1, w0', w1', w0'', w1''.
  split; [exact Hcur|]. split; [exact Hcur'|]. split; [exact Hcur''|].
  split.
  - rewrite E1, E1'. apply step2_snd. apply iter_step2_snd.
  - rewrite E0, E0''. apply step2_fst. apply iter_step2_fst.
Qed.

(** Two steps, from (8, 5), from (1, 5) under the redefined loss, and from
    (8, -1). *)
Lemma train_weights_do_not_interact_witness :
  exists guesses s1 traj guesses' s1' traj' guesses'' s1'' traj'',
    Training.train Surfaces.loss_fn 0 0.04 0.75 0.75 2 one_variable
      = Some (guesses, s1) /\
    snapshots s1 guesses = map Some traj /\
    Training.train NearSparsity.loss_fn 0 0.04 0.75 0.75 2
      (mkStore [[1; 5]] [mkVariable 0 None]) = Some (guesses', s1') /\
    snapshots s1' guesses' = map Some traj' /\
    Training.train Surfaces.loss_fn 0 0.04 0.75 0.75 2
      (mkStore [[8; - (1)]] [mkVariable 0 None]) = Some (guesses'', s1'') /\
    snapshots s1'' guesses'' = map Some traj'' /\
    forall i : nat, (i < 2)%nat ->
      exists w0 w1 w0' w1' w0'' w1'',
        traj !! i = Some [w0; w1] /\
        traj' !! i = Some [w0'; w1'] /\
        traj'' !! i = Some [w0''; w1''] /\
        w1' == w1 /\ w0'' == w0.
Proof.
  apply (train_weights_do_not_interact 0 0 0 0.04 0.75 0.75 2
           one_variable (mkStore [[1; 5]] [mkVariable 0 None])
           (mkStore [[8; - (1)]] [mkVariable 0 None]) 8 1 5 (- (1))
           None None None).
  - exists (mkVariable 0 None). repeat split; reflexivity.
  - exact I.
  - exists (mkVariable 0 None). repeat split; reflexivity.
  - exact I.
  - exists (mkVariable 0 None). repeat split; reflexivity.
  - exact I.
Defined.
